(** * Portfolio site: configuration, content collection and API stub

    A shallow embedding of the executable and declarative parts of the
    portfolio repository:

    - the site configuration module ([SITE], [LOCALE], [LOGO_IMAGE],
      [SOCIALS]);
    - the front-matter of the blog posts of the content collection;
    - the [/api/users] request handler;
    - the services whose sources the blog posts carry: the game room
      service, its worker task and its event handler, and the lambda and
      the database client of the video projects.

    The static-site generator that consumes the configuration and the
    content (listing, lookup by slug, pagination, rendering of the social
    links) is not part of the sources; its operations are modelled from
    the specification and marked as such. *)

From Stdlib Require Import ZArith QArith Qround Lia Ascii String.
From stdpp Require Import base list strings sorting gmap.
From Equations Require Import Equations.

Local Open Scope string_scope.
Local Open Scope Z_scope.

(** * The content collection *)

Module Content.

(** ** Timestamps *)

(** A [pubDatetime] front-matter value such as [2024-09-03T15:22:00Z]:
    a UTC instant given by its calendar fields. *)
Record DateTime := mkDateTime {
  year : Z;
  month : Z;
  day : Z;
  hour : Z;
  minute : Z;
  second : Z;
}.

(** Days between 1970-01-01 and the given civil date (proleptic Gregorian
    calendar); years are counted from March so that the leap day is the
    last day of the year. *)
Definition daysFromCivil (y m d : Z) : Z :=
  let y' := if m <=? 2 then y - 1 else y in
  let era := y' / 400 in
  let yoe := y' - era * 400 in
  let mp := if m <=? 2 then m + 9 else m - 3 in
  let doy := (153 * mp + 2) / 5 + d - 1 in
  let doe := yoe * 365 + yoe / 4 - yoe / 100 + doy in
  era * 146097 + doe - 719468.

(** Seconds since the Unix epoch: what [new Date(s).getTime() / 1000]
    yields for a UTC timestamp with no fractional part. *)
Definition getTime (t : DateTime) : Z :=
  daysFromCivil (year t) (month t) (day t) * 86400
  + hour t * 3600 + minute t * 60 + second t.

(** ** Blog posts *)

(** The front-matter block of a post. The markdown body plays no part in
    listing, lookup or pagination and is not represented. *)
Record BlogPost := mkBlogPost {
  author : string;
  pubDatetime : DateTime;
  title : string;
  postSlug : string;
  featured : bool;
  draft : bool;
  tags : list string;
  ogImage : string;
  description : string;
}.

#[global] Instance DateTime_eq_dec : EqDecision DateTime.
Proof. solve_decision. Defined.

#[global] Instance BlogPost_eq_dec : EqDecision BlogPost.
Proof. solve_decision. Defined.

(** [ai-generated-video-chatgpt] *)
Definition post_ai_video : BlogPost := {|
  author := "Will Redington";
  pubDatetime := mkDateTime 2023 6 2 15 22 0;
  title := "AI-generated video using ChatGPT";
  postSlug := "ai-generated-video-chatgpt";
  featured := true;
  draft := false;
  tags := ["ai"; "chatgpt"; "python"; "aws"; "typescript"; "node"];
  ogImage := EmptyString;
  description := "How to create an AI-generated video using ChatGPT";
|}.

(** [src/content/blog/multiplayer-trivia-game-part-1.md] *)
Definition post_trivia_1 : BlogPost := {|
  author := "Will Redington";
  pubDatetime := mkDateTime 2024 9 3 15 22 0;
  title := "Multiplayer Trivia Game - Part 1 - Design";
  postSlug := "multiplayer-trivia-game-with-ai-part-1";
  featured := true;
  draft := false;
  tags := ["ai"; "chatgpt"; "python"; "kubernetes"; "nextjs"; "react"; "node"];
  ogImage := "astropaper-og.jpg";
  description := "Designing the trivia game";
|}.

(** [src/content/blog/multiplayer-trivia-game-part-2.md] *)
Definition post_trivia_2 : BlogPost := {|
  author := "Will Redington";
  pubDatetime := mkDateTime 2024 9 3 15 22 0;
  title := "Multiplayer Trivia Game - Part 2 - Services";
  postSlug := "multiplayer-trivia-game-with-ai-part-2";
  featured := true;
  draft := false;
  tags := ["ai"; "chatgpt"; "python"; "kubernetes"; "nextjs"; "react"; "node"];
  ogImage := "astropaper-og.jpg";
  description := "Building out the services";
|}.

(** [multiplayer-trivia-game-with-ai-part-3] *)
Definition post_trivia_3 : BlogPost := {|
  author := "Will Redington";
  pubDatetime := mkDateTime 2024 9 10 15 22 0;
  title := "Multiplayer Trivia Game - Part 3 - Events & Tasks";
  postSlug := "multiplayer-trivia-game-with-ai-part-3";
  featured := true;
  draft := false;
  tags := ["ai"; "chatgpt"; "python"; "kubernetes"; "nextjs"; "react"; "node"];
  ogImage := "astropaper-og.jpg";
  description := "Creating events and tasks";
|}.

(** The blog content collection: one entry per source document. *)
Definition blog : list BlogPost :=
  [post_ai_video; post_trivia_1; post_trivia_2; post_trivia_3].

(** ** Content collection provider *)

(** [p] is published no earlier than [q]: the order of a listing that
    is sorted by [pubDatetime] descending. *)
Definition notOlder (p q : BlogPost) : Prop :=
  getTime (pubDatetime q) <= getTime (pubDatetime p).

#[global] Instance notOlder_dec p q : Decision (notOlder p q).
Proof. unfold notOlder. apply _. Defined.

(** One step of a stable insertion sort, newest first: [p] goes in front
    of the first entry that is not newer than [p]. *)
Fixpoint insertByDate (p : BlogPost) (l : list BlogPost) : list BlogPost :=
  match l with
  | [] => [p]
  | q :: l' =>
      if getTime (pubDatetime q) <=? getTime (pubDatetime p)
      then p :: q :: l'
      else q :: insertByDate p l'
  end.

Definition sortByDateDesc (l : list BlogPost) : list BlogPost :=
  foldr insertByDate [] l.

Record ListFilter := mkListFilter { includeDrafts : bool }.

(** Which posts a listing keeps: every post when drafts are included,
    the posts with [draft = false] otherwise. *)
Definition listed (f : ListFilter) (p : BlogPost) : bool :=
  includeDrafts f || negb (draft p).

(** Modelled from the spec: [listPosts] is an operation of the content
    collection provider, which is not among the sources. It returns the
    posts sorted by [pubDatetime] descending, with the [draft = true]
    entries excluded unless [includeDrafts] is set. *)
Definition listPosts (f : ListFilter) (posts : list BlogPost) : list BlogPost :=
  sortByDateDesc (filter (λ p, listed f p = true) posts).

Inductive LookupError := NotFound | BuildConfigError.

Inductive LookupResult :=
  | Found (p : BlogPost)
  | Failed (e : LookupError).

(** Modelled from the spec: [getPostBySlug] is an operation of the content
    collection provider, which is not among the sources. It returns the
    post whose slug matches, and [NotFound] when no slug matches. *)
Fixpoint getPostBySlug (posts : list BlogPost) (slug : string) : LookupResult :=
  match posts with
  | [] => Failed NotFound
  | p :: posts' =>
      if String.eqb (postSlug p) slug then Found p
      else getPostBySlug posts' slug
  end.

(** The non-draft posts, and how many there are. *)
Definition nonDrafts (posts : list BlogPost) : list BlogPost :=
  filter (λ p, draft p = false) posts.

Definition nonDraftCount (posts : list BlogPost) : nat :=
  length (nonDrafts posts).

(** Modelled from the spec: the paginated listing pages [/posts/{page}]
    are produced by the site generator, which is not among the sources.
    The listed posts are cut into consecutive pages of [size] posts, the
    last page possibly shorter; a page size of 0, which the invariant on
    the site configuration excludes, yields no page. *)
Equations? paginate {A : Type} (size : nat) (l : list A) : list (list A)
  by wf (length l) lt :=
  paginate 0 _ := [];
  paginate (S n) [] := [];
  paginate (S n) (x :: l) := (x :: take n l) :: paginate (S n) (drop n l).
Proof. rewrite length_drop. simpl. lia. Qed.

(** Modelled from the spec: the pagination page count is the number of
    listing pages generated for the non-draft posts. *)
Definition pageCount (postPerPage : Z) (posts : list BlogPost) : nat :=
  length (paginate (Z.to_nat postPerPage)
            (listPosts {| includeDrafts := false |} posts)).

End Content.

(** * The site configuration *)

Module Config.

(** The [Site] type of the configuration module: the shape of the [SITE]
    object literal. Numbers are integers throughout the configuration. *)
Record Site := mkSite {
  website : string;
  author : string;
  desc : string;
  title : string;
  ogImage : string;
  lightAndDarkMode : bool;
  postPerPage : Z;
}.

Definition SITE : Site := {|
  website := "https://willredington.com/";
  author := "Will Redington";
  desc := "Portfolio Website";
  title := "Portfolio";
  ogImage := "astropaper-og.jpg";
  lightAndDarkMode := true;
  postPerPage := 3;
|}.

Definition LOCALE : list string := ["en-EN"].

Record LogoImage := mkLogoImage {
  enable : bool;
  svg : bool;
  width : Z;
  height : Z;
}.

Definition LOGO_IMAGE : LogoImage := {|
  enable := false;
  svg := true;
  width := 216;
  height := 46;
|}.

(** An entry of the [SocialObjects] array. *)
Record SocialObject := mkSocialObject {
  name : string;
  href : string;
  linkTitle : string;
  active : bool;
}.

#[global] Instance SocialObject_eq_dec : EqDecision SocialObject.
Proof. solve_decision. Defined.

(** The [linkTitle] fields are template literals over [SITE.title]; the
    first one starts with a blank. *)
Definition SOCIALS : list SocialObject := [
  {| name := "Github";
     href := "https://github.com/willredington";
     linkTitle := " " +:+ title SITE +:+ " on Github";
     active := true |};
  {| name := "LinkedIn";
     href := "https://www.linkedin.com/in/will-redington-04814493/";
     linkTitle := title SITE +:+ " on LinkedIn";
     active := true |};
  {| name := "Mail";
     href := "mailto:will86325@gmail.com";
     linkTitle := "Send an email to " +:+ title SITE;
     active := true |}
].

(** Modelled from the spec: the component that renders the social links
    is not among the sources. Only the entries with [active = true] are
    rendered, in the order of the sequence. *)
Definition renderedSocials (socials : list SocialObject) : list SocialObject :=
  filter (λ s, active s = true) socials.

End Config.

(** * Syntax of link targets *)

Module Uri.

Definition code (c : ascii) : Z := Z.of_N (N_of_ascii c).

Definition isAlpha (c : ascii) : bool :=
  ((65 <=? code c) && (code c <=? 90)) || ((97 <=? code c) && (code c <=? 122)).

Definition isDigit (c : ascii) : bool :=
  (48 <=? code c) && (code c <=? 57).

Definition isHexDigit (c : ascii) : bool :=
  isDigit c
  || ((65 <=? code c) && (code c <=? 70))
  || ((97 <=? code c) && (code c <=? 102)).

Definition oneOf (cs : string) (c : ascii) : bool :=
  bool_decide (c ∈ list_ascii_of_string cs).

(** The character classes of RFC 3986. *)
Definition isUnreserved (c : ascii) : bool :=
  isAlpha c || isDigit c || oneOf "-._~" c.

Definition isSubDelim (c : ascii) : bool := oneOf "!$&'()*+,;=" c.

Definition isSchemeChar (c : ascii) : bool :=
  isAlpha c || isDigit c || oneOf "+-." c.

Definition isAuthorityChar (c : ascii) : bool :=
  isUnreserved c || isSubDelim c || oneOf ":@[]" c.

Definition isPathQueryChar (c : ascii) : bool :=
  isUnreserved c || isSubDelim c || oneOf ":@/?#" c.

(** Every character of [s] is allowed by [ok] or starts a percent-encoded
    octet [%XX]. *)
Fixpoint allChars (ok : ascii → bool) (s : string) : bool :=
  match s with
  | EmptyString => true
  | String c s' =>
      if Ascii.eqb c "%" then
        match s' with
        | String h1 (String h2 s'') =>
            isHexDigit h1 && isHexDigit h2 && allChars ok s''
        | _ => false
        end
      else ok c && allChars ok s'
  end.

(** [splitAt stop s]: the longest prefix of [s] with no character of
    [stop], and what follows it. *)
Fixpoint splitAt (stop : ascii → bool) (s : string) : string * string :=
  match s with
  | EmptyString => (EmptyString, EmptyString)
  | String c s' =>
      if stop c then (EmptyString, s)
      else let '(a, b) := splitAt stop s' in (String c a, b)
  end.

Definition nonEmpty (s : string) : bool :=
  match s with EmptyString => false | String _ _ => true end.

Definition isScheme (s : string) : bool :=
  match s with
  | EmptyString => false
  | String c s' => isAlpha c && forallb isSchemeChar (list_ascii_of_string s')
  end.

(** A syntactically valid URL: [scheme://authority] with a non-empty
    authority, followed by path, query and fragment characters. *)
Definition isURL (s : string) : bool :=
  match splitAt (oneOf ":") s with
  | (scheme, String ":" (String "/" (String "/" rest))) =>
      let '(authority, tail) := splitAt (oneOf "/?#") rest in
      isScheme scheme
      && nonEmpty authority && allChars isAuthorityChar authority
      && allChars isPathQueryChar tail
  | _ => false
  end.

Definition isLocalPartChar (c : ascii) : bool :=
  isAlpha c || isDigit c || oneOf "!#$&'*+-/=?^_`{|}~." c.

Definition isDomainChar (c : ascii) : bool :=
  isAlpha c || isDigit c || oneOf "-." c.

(** A [mailto:] URI: the scheme followed by an address [local@domain]
    with both parts non-empty. *)
Definition isMailto (s : string) : bool :=
  match splitAt (oneOf ":") s with
  | (scheme, String ":" addr) =>
      let '(loc, rest) := splitAt (oneOf "@") addr in
      String.eqb scheme "mailto"
      && nonEmpty loc && allChars isLocalPartChar loc
      && match rest with
         | String "@" domain =>
             nonEmpty domain
             && forallb isDomainChar (list_ascii_of_string domain)
         | _ => false
         end
  | _ => false
  end.

Definition isLinkTarget (s : string) : bool := isURL s || isMailto s.

End Uri.

(** * The [/api/users] handler *)

Module Api.

(** ** JSON text *)

Definition dquote : ascii := "034".

Definition hexDigit (n : N) : ascii :=
  ascii_of_N (if (n <? 10)%N then 48 + n else 87 + n)%N.

(** How [JSON.stringify] writes one character of a string: the quote and
    the backslash are escaped, control characters get their short escape
    or a [\u00XX] escape, everything else is copied. *)
Definition escapeChar (c : ascii) : string :=
  let n := N_of_ascii c in
  if (n =? 34)%N then String "\" (String dquote EmptyString)
  else if (n =? 92)%N then "\\"
  else if (n =? 8)%N then "\b"
  else if (n =? 9)%N then "\t"
  else if (n =? 10)%N then "\n"
  else if (n =? 12)%N then "\f"
  else if (n =? 13)%N then "\r"
  else if (n <? 32)%N then
    "\u00" +:+ String (hexDigit (n / 16)) (String (hexDigit (n mod 16)) EmptyString)
  else String c EmptyString.

Fixpoint escapeString (s : string) : string :=
  match s with
  | EmptyString => EmptyString
  | String c s' => escapeChar c +:+ escapeString s'
  end.

Definition quoteJSONString (s : string) : string :=
  String dquote (escapeString s +:+ String dquote EmptyString).

(** The response payload type [Record<'name', string>]. *)
Record NameRecord := mkNameRecord { name : string }.

(** [JSON.stringify] at the payload type. *)
Definition stringify (r : NameRecord) : string :=
  "{" +:+ quoteJSONString "name" +:+ ":" +:+ quoteJSONString (name r) +:+ "}".

(** ** Requests, responses and the state of the server *)

Record NextApiRequest := mkRequest {
  method : option string;
  url : option string;
  headers : gmap string string;
  query : gmap string string;
  cookies : gmap string string;
  body : option string;
}.

Record NextApiResponse := mkResponse {
  statusCode : Z;
  responseHeaders : gmap string string;
  responseBody : option string;
}.

(** The state a handler runs in: the bindings of the program outside the
    response, and the response object that the framework hands over. *)
Record State := mkState {
  store : gmap string string;
  res : NextApiResponse;
}.

(** Handlers are state transformers that return a value. *)
Definition Handler (A : Type) : Type := State → A * State.

#[global] Instance Handler_ret : MRet Handler := λ A a st, (a, st).

#[global] Instance Handler_bind : MBind Handler :=
  λ A B k m st, let '(a, st') := m st in k a st'.

(** [res.status(code)]: sets the status code of the response. *)
Definition status (code : Z) : Handler unit :=
  λ st,
    (tt, {| store := store st;
            res := {| statusCode := code;
                      responseHeaders := responseHeaders (res st);
                      responseBody := responseBody (res st) |} |}).

(** [res.json(payload)]: sets the content type and sends the payload as
    JSON text. *)
Definition json (payload : NameRecord) : Handler unit :=
  λ st,
    (tt, {| store := store st;
            res := {| statusCode := statusCode (res st);
                      responseHeaders :=
                        <["Content-Type" := "application/json; charset=utf-8"]>
                          (responseHeaders (res st));
                      responseBody := Some (stringify payload) |} |}).

(** The default export of [pages/api/users.ts]:
    [res.status(200).json({ name: 'John Doe' })]. *)
Definition handler (req : NextApiRequest) : Handler unit :=
  status 200 ;; json {| name := "John Doe" |}.

(** The response a request is answered with. *)
Definition respond (req : NextApiRequest) (st : State) : NextApiResponse :=
  res (snd (handler req st)).

(** The same request sent with another method. *)
Definition withMethod (m : option string) (req : NextApiRequest) : NextApiRequest :=
  {| method := m; url := url req; headers := headers req;
     query := query req; cookies := cookies req; body := body req |}.

(** The text [{"name":"John Doe"}]. *)
Definition johnDoe : string :=
  "{" +:+ String dquote "name" +:+ String dquote ":"
  +:+ String dquote "John Doe" +:+ String dquote "}".

End Api.

(** * The trivia game services described in the blog posts

    The posts of the trivia series carry the Python sources of the game
    room services. The calls into Redis, the event bus and the helpers
    that the posts do not show are operations of an environment; the
    functions that the posts show in full are embedded over it. *)

Module Trivia.

(** ** The data model *)

Module model.

Inductive GameStatus :=
  | IDLE | BUILDING | READY | IN_PROGRESS | COMPLETED | FAILED.

#[global] Instance GameStatus_eq_dec : EqDecision GameStatus.
Proof. solve_decision. Defined.

Record GameRoomImage := mkGameRoomImage {
  url : string;
  author_url : string;
}.

(** The classes [Player] and [MultipleChoiceQuestion] are used but not
    shown; their fields are the ones that the posts read. *)
Record Player := mkPlayer {
  token : string;
  name : string;
  avatar : string;
  score : Z;
}.

Record MultipleChoiceQuestion := mkQuestion {
  id : string;
  question : string;
  choices : list string;
  answer : string;
}.

Record GameRoom := mkGameRoom {
  code : string;
  title : option string;
  topic : string;
  owner_id : string;
  max_player_count : Z;
  image : option GameRoomImage;
  status : GameStatus;
  players : list Player;
  questions : list MultipleChoiceQuestion;
  failure_reason : option string;
  current_question_id : option string;
}.

#[global] Instance GameRoomImage_eq_dec : EqDecision GameRoomImage.
Proof. solve_decision. Defined.

#[global] Instance Player_eq_dec : EqDecision Player.
Proof. solve_decision. Defined.

#[global] Instance MultipleChoiceQuestion_eq_dec : EqDecision MultipleChoiceQuestion.
Proof. solve_decision. Defined.

#[global] Instance GameRoom_eq_dec : EqDecision GameRoom.
Proof. solve_decision. Defined.

(** One entry of the dictionary passed to [model_copy(update=...)]. *)
Inductive FieldUpdate :=
  | set_title (v : option string)
  | set_topic (v : string)
  | set_image (v : option GameRoomImage)
  | set_status (v : GameStatus)
  | set_players (v : list Player)
  | set_questions (v : list MultipleChoiceQuestion)
  | set_failure_reason (v : option string)
  | set_current_question_id (v : option string).

Definition update_field (g : GameRoom) (u : FieldUpdate) : GameRoom :=
  match u with
  | set_title v =>
      mkGameRoom (code g) v (topic g) (owner_id g) (max_player_count g)
        (image g) (status g) (players g) (questions g) (failure_reason g)
        (current_question_id g)
  | set_topic v =>
      mkGameRoom (code g) (title g) v (owner_id g) (max_player_count g)
        (image g) (status g) (players g) (questions g) (failure_reason g)
        (current_question_id g)
  | set_image v =>
      mkGameRoom (code g) (title g) (topic g) (owner_id g) (max_player_count g)
        v (status g) (players g) (questions g) (failure_reason g)
        (current_question_id g)
  | set_status v =>
      mkGameRoom (code g) (title g) (topic g) (owner_id g) (max_player_count g)
        (image g) v (players g) (questions g) (failure_reason g)
        (current_question_id g)
  | set_players v =>
      mkGameRoom (code g) (title g) (topic g) (owner_id g) (max_player_count g)
        (image g) (status g) v (questions g) (failure_reason g)
        (current_question_id g)
  | set_questions v =>
      mkGameRoom (code g) (title g) (topic g) (owner_id g) (max_player_count g)
        (image g) (status g) (players g) v (failure_reason g)
        (current_question_id g)
  | set_failure_reason v =>
      mkGameRoom (code g) (title g) (topic g) (owner_id g) (max_player_count g)
        (image g) (status g) (players g) (questions g) v
        (current_question_id g)
  | set_current_question_id v =>
      mkGameRoom (code g) (title g) (topic g) (owner_id g) (max_player_count g)
        (image g) (status g) (players g) (questions g) (failure_reason g) v
  end.

(** [game_room.model_copy(update=partial)]: a copy of the room with the
    fields of the dictionary replaced. *)
Definition model_copy (g : GameRoom) (partial : list FieldUpdate) : GameRoom :=
  foldl update_field g partial.

(** The events of the game room channel. *)
Inductive GameRoomEvent :=
  | GameRoomCreatedEvent (game_room : GameRoom) (questions_length : Z)
  | GameRoomUpdatedEvent (game_room : GameRoom)
  | GameRoomStartedEvent (game_room_code : string).

Record GameRoomCountdownEvent := mkCountdownEvent {
  game_room_code : string;
  time_remaining_in_seconds : Z;
}.


(** What the thumbnail search yields: [thumbnail.urls.thumb] and
    [thumbnail.user.links.html]. *)
Record Thumbnail := mkThumbnail {
  urls_thumb : string;
  user_links_html : string;
}.

Inductive Exception :=
  | ValueError (msg : string)
  | IndexError
  | GameRoomNotFoundException (msg : string)
  | GameRoomStatusException (msg : string)
  | QuestionNotFoundException (msg : string).

(** The result of a call: a value, or a raised exception. *)
Inductive Outcome (A : Type) :=
  | Returned (a : A)
  | Raised (e : Exception).
Arguments Returned {A} a.
Arguments Raised {A} e.

End model.

(** ** The game room service *)

Module service.
Import model.

(** What the service functions run against. [R] is the state behind the
    Redis client: the stored rooms and the events emitted so far.

    The posts show neither the helpers [make_game_room_key],
    [make_unique_game_room_code] and [get_thumbnail], nor the constants
    [_GAME_ROOM_TTL] and [_GAME_ROOM_MAX_PLAYER_COUNT], nor the body of
    [get_game_room_by_code] and [emit_game_room_event]; [read_game_room]
    is what [get_game_room_by_code] finds for a room code, [redis_set] is
    [redis_client.set(key, room.model_dump_json(), ex=ttl)] and
    [publish] is what [emit_game_room_event] does to the state. *)
Class Environment (R : Type) := {
  make_game_room_key : string → string;
  make_unique_game_room_code : R → string;
  get_thumbnail : string → option Thumbnail;
  _GAME_ROOM_TTL : Z;
  _GAME_ROOM_MAX_PLAYER_COUNT : Z;
  read_game_room : R → string → option GameRoom;
  redis_set : string → GameRoom → Z → R → R;
  publish : GameRoomEvent → R → R;
}.

(** A store in which a room is read back as it was last written, as long
    as its entry has not expired, and in which emitting an event leaves
    the stored rooms alone. *)
Class ReadsLastWrite (R : Type) `{Environment R} : Prop := {
  read_after_set r code g ex :
    read_game_room (redis_set (make_game_room_key code) g ex r) code = Some g;
  read_after_publish r e code :
    read_game_room (publish e r) code = read_game_room r code;
}.

(** An [async] function: it runs on the state and returns or raises. *)
Definition Async (R A : Type) : Type := R → Outcome A * R.

#[global] Instance Async_ret {R} : MRet (Async R) :=
  λ A a r, (Returned a, r).

#[global] Instance Async_bind {R} : MBind (Async R) :=
  λ A B k m r,
    match m r with
    | (Returned a, r') => k a r'
    | (Raised e, r') => (Raised e, r')
    end.

Definition raise {R A} (e : Exception) : Async R A := λ r, (Raised e, r).

Section Service.
Context {R : Type} `{Environment R}.

Definition get_game_room_by_code (game_room_code : string)
  : Async R (option GameRoom) :=
  λ r, (Returned (read_game_room r game_room_code), r).

Definition redis_client_set (key : string) (value : GameRoom) (ex : Z)
  : Async R unit :=
  λ r, (Returned tt, redis_set key value ex r).

Definition emit_game_room_event (event : GameRoomEvent) : Async R unit :=
  λ r, (Returned tt, publish event r).

Definition update_game_room
    (game_room_code : string) (game_room_partial : list FieldUpdate)
  : Async R GameRoom :=
  game_room ← get_game_room_by_code game_room_code;
  match game_room with
  | None => raise (ValueError "Game room does not exist")
  | Some game_room =>
      let game_room_key := make_game_room_key game_room_code in
      let updated_game_room := model_copy game_room game_room_partial in
      redis_client_set game_room_key updated_game_room _GAME_ROOM_TTL ;;
      emit_game_room_event (GameRoomUpdatedEvent updated_game_room) ;;
      mret updated_game_room
  end.

(** [next((i for i, question in enumerate(questions)
          if question.id == current_question_id), None)] *)
Definition current_question_index (game_room : GameRoom) : option nat :=
  fst <$> list_find (λ question, Some (id question) = current_question_id game_room)
            (questions game_room).

(** Cycle to the next question if possible. Returns [true] if the game
    room is finished, [false] otherwise. *)
Definition cycle_game_room (game_room_code : string) : Async R bool :=
  game_room ← get_game_room_by_code game_room_code;
  match game_room with
  | None => raise (GameRoomNotFoundException "Game room does not exist")
  | Some game_room =>
      if decide (status game_room ≠ IN_PROGRESS) then
        raise (GameRoomStatusException "Game room is not in progress")
      else
        match current_question_index game_room with
        | None => raise (QuestionNotFoundException "Current question not found")
        | Some current_question_index =>
            let next_question_index := S current_question_index in
            if decide (length (questions game_room) ≤ next_question_index)%nat then
              update_game_room game_room_code [set_status COMPLETED] ;;
              mret true
            else
              match questions game_room !! next_question_index with
              | None => raise IndexError
              | Some next_question =>
                  update_game_room game_room_code
                    [set_current_question_id (Some (id next_question))] ;;
                  mret false
              end
        end
  end.

(** [n] calls of [cycle_game_room] in a row, as the worker asks for them:
    what each call returned or raised, and the state after the last. *)
Fixpoint repeat_cycle (n : nat) (game_room_code : string) (r : R)
  : list (Outcome bool) * R :=
  match n with
  | O => ([], r)
  | S n' =>
      let '(outcome, r') := cycle_game_room game_room_code r in
      let '(outcomes, r'') := repeat_cycle n' game_room_code r' in
      (outcome :: outcomes, r'')
  end.


End Service.

End service.

(** ** The worker task *)

Module task.
Import model.

(** What the worker runs against: the channel that notifies the clients,
    the clock, and the webhook of the main API, which answers whether the
    game room is finished or fails. *)
Class Environment (W : Type) := {
  emit_notify_clients_event_sync : GameRoomCountdownEvent → W → W;
  time_sleep : Z → W → W;
  send_cycle_game_room_webhook : string → W → option bool * W;
}.

(** Python's [range(start, stop, step)]; a step of 0, which Python
    refuses, is given the empty range. *)
Definition range (start stop step : Z) : list Z :=
  let n :=
    if 0 <? step then (stop - start + step - 1) / step
    else if step <? 0 then (start - stop - step - 1) / (- step)
    else 0 in
  (λ i : nat, start + Z.of_nat i * step) <$> seq 0 (Z.to_nat n).

(** How a run of the task ends: it returns, it is aborted by an
    exception, or it is still looping when the fuel is used up. *)
Inductive Run := Returns | Aborts | Loops.

Section Task.
Context {W : Type} `{Environment W}.

Definition cycle_duration : Z := 10.
Definition countdown_interval : Z := 2.

(** The [for] loop of one cycle: a countdown event and a pause per step. *)
Definition countdown (game_room_code : string) (w : W) : W :=
  foldl
    (λ w remaining_time,
       time_sleep countdown_interval
         (emit_notify_clients_event_sync
            {| game_room_code := game_room_code;
               time_remaining_in_seconds := remaining_time |} w))
    w (range cycle_duration 0 (- countdown_interval)).

(** The [while True] loop, bounded by [fuel] iterations. *)
Fixpoint cycle_game_room (fuel : nat) (game_room_code : string) (w : W)
  : Run * W :=
  match fuel with
  | O => (Loops, w)
  | S fuel' =>
      let w := countdown game_room_code w in
      match send_cycle_game_room_webhook game_room_code w with
      | (None, w) => (Aborts, w)
      | (Some is_game_room_finished, w) =>
          if is_game_room_finished then (Returns, w)
          else cycle_game_room fuel' game_room_code w
      end
  end.

End Task.

(** The worker next to the main API. The webhook is not shown; as the
    post says, it has the main API cycle to the next question, so it is
    taken to run [service.cycle_game_room] on the store and to hand back
    its result. *)
Record World (R : Type) := mkWorld {
  redis : R;
  notified : list GameRoomCountdownEvent;
  slept : Z;
}.
Arguments mkWorld {R} redis notified slept.
Arguments redis {R} w.
Arguments notified {R} w.
Arguments slept {R} w.

#[global] Instance World_environment {R} `{service.Environment R}
  : Environment (World R) := {|
  emit_notify_clients_event_sync event w :=
    mkWorld (redis w) (notified w ++ [event]) (slept w);
  time_sleep seconds w :=
    mkWorld (redis w) (notified w) (slept w + seconds);
  send_cycle_game_room_webhook game_room_code w :=
    match service.cycle_game_room game_room_code (redis w) with
    | (Returned finished, r) => (Some finished, mkWorld r (notified w) (slept w))
    | (Raised _, r) => (None, mkWorld r (notified w) (slept w))
    end;
|}.

(** The countdown events of one cycle: 10, 8, 6, 4 and 2 seconds left. *)
Definition countdown_events (game_room_code : string)
  : list GameRoomCountdownEvent :=
  mkCountdownEvent game_room_code <$> [10; 8; 6; 4; 2].

End task.

(** ** The event sourcing service *)

Module events.

(** A caught exception: its class, as far as the handlers tell classes
    apart, and the text [str(e)]. *)
Inductive ExceptionClass := JSONDecodeError | ValidationError | OtherException.

Record PyException := mkException {
  exception_class : ExceptionClass;
  str : string;
}.

Record GameRoomFailed := mkGameRoomFailed {
  game_room_code : string;
  failure_reason : string;
}.

(** What the handler runs against: [json.loads], the validation of the
    decoded data as a [GenerateTriviaQuestionsResponseEvent], of which
    the handler reads the room code, and the two webhooks of the main
    API. Each of them returns or raises. *)
Class Environment (W JsonData : Type) := {
  json_loads : string → PyException + JsonData;
  GenerateTriviaQuestionsResponseEvent : JsonData → PyException + string;
  send_generate_trivia_questions_response_webhook :
    JsonData → W → option PyException * W;
  send_game_room_failed_webhook : GameRoomFailed → W → option PyException * W;
}.

(** Truth value of an optional string: [None] and the empty string are
    false. *)
Definition truthy (s : option string) : bool :=
  match s with
  | Some (String _ _) => true
  | _ => false
  end.

(** The failure reason that the [except] clauses record. *)
Definition reason (e : PyException) : string :=
  match exception_class e with
  | JSONDecodeError => "Received invalid JSON data"
  | ValidationError => str e
  | OtherException => str e
  end.

Section Handlers.
Context {W JsonData : Type} `{Environment W JsonData}.

(** The [try] block: the room code and the failure reason it leaves
    behind. A message without ["data"] raises a [KeyError]. *)
Definition try_response (message : gmap string string) (w : W)
  : option string * option string * W :=
  match message !! "data" with
  | None => (None, Some (reason (mkException OtherException "'data'")), w)
  | Some data =>
      match json_loads data with
      | inl e => (None, Some (reason e), w)
      | inr json_data =>
          match GenerateTriviaQuestionsResponseEvent json_data with
          | inl e => (None, Some (reason e), w)
          | inr game_room_code =>
              match send_generate_trivia_questions_response_webhook json_data w with
              | (Some e, w') => (Some game_room_code, Some (reason e), w')
              | (None, w') => (Some game_room_code, None, w')
              end
          end
      end
  end.

(** Returns [None] when the handler returns, and the exception when the
    failure webhook raises. *)
Definition handle_generate_trivia_questions_response_message
    (message : gmap string string) (w : W) : option PyException * W :=
  let '(game_room_code, failure_reason, w) := try_response message w in
  if truthy game_room_code && truthy failure_reason then
    send_game_room_failed_webhook
      {| game_room_code := default EmptyString game_room_code;
         failure_reason := default EmptyString failure_reason |} w
  else (None, w).

End Handlers.

(** A recording environment: JSON data are the strings that start with a
    brace, an event is valid when it names the room after ["room="], and
    the response webhook fails for the room ["down"]. *)
Inductive Call :=
  | ResponseWebhook (json_data : string)
  | FailedWebhook (failed : GameRoomFailed).

Definition room_of (json_data : string) : PyException + string :=
  match json_data with
  | String "{" (String "r" (String "o" (String "o" (String "m" (String "=" room))))) =>
      inr room
  | _ => inl (mkException ValidationError "1 validation error")
  end.

#[global] Instance recording : Environment (list Call) string := {|
  json_loads data :=
    match data with
    | String "{" _ => inr data
    | _ => inl (mkException JSONDecodeError "Expecting value")
    end;
  GenerateTriviaQuestionsResponseEvent := room_of;
  send_generate_trivia_questions_response_webhook json_data w :=
    (if String.eqb json_data "{room=down" then
       Some (mkException OtherException "Connection refused")
     else None,
     (w ++ [ResponseWebhook json_data])%list);
  send_game_room_failed_webhook failed w :=
    (None, (w ++ [FailedWebhook failed])%list);
|}.

End events.

(** ** The WebSocket connection manager *)

Module websocket.

(** What the manager runs against: closing a socket with a reason, and
    [websocket.send_json(event.model_dump())], which yields [false] when
    it raises. No other coroutine is taken to run in between. The method
    [close_websocket] is left out: the condition that the post gives it,
    [is in], is not Python. *)
Class Environment (W WebSocket Event : Type) := {
  websocket_close : WebSocket → string → W → W;
  websocket_send_json : WebSocket → Event → W → bool * W;
}.

(** [connections_map] is a [dict]: its entries are kept in the order in
    which the keys were inserted. *)
Record GameRoomWebsocketConnectionManager (WebSocket : Type) := mkManager {
  game_room_code : string;
  connections_map : list (string * WebSocket);
}.
Arguments mkManager {WebSocket} game_room_code connections_map.
Arguments game_room_code {WebSocket} _.
Arguments connections_map {WebSocket} _.

(** [d.get(key)] *)
Fixpoint dict_get {V : Type} (key : string) (d : list (string * V)) : option V :=
  match d with
  | [] => None
  | (k, v) :: d' => if String.eqb k key then Some v else dict_get key d'
  end.

Section Manager.
Context {W WebSocket Event : Type} `{Environment W WebSocket Event}.

Definition __init__ (game_room_code : string)
  : GameRoomWebsocketConnectionManager WebSocket :=
  {| game_room_code := game_room_code; connections_map := [] |}.

Definition connect (websocket : WebSocket) (player_token : string)
    (self : GameRoomWebsocketConnectionManager WebSocket) (w : W)
  : GameRoomWebsocketConnectionManager WebSocket * W :=
  if bool_decide (player_token ∈ (connections_map self).*1) then
    (self, websocket_close websocket "Player already connected" w)
  else
    ({| game_room_code := game_room_code self;
        connections_map := connections_map self ++ [(player_token, websocket)] |},
     w).

Definition broadcast_one (player_token : string) (event : Event)
    (self : GameRoomWebsocketConnectionManager WebSocket) (w : W) : bool * W :=
  match dict_get player_token (connections_map self) with
  | None => (true, w)
  | Some websocket => websocket_send_json websocket event w
  end.

(** The [for] loop of [broadcast_all]; an exception ends it. *)
Fixpoint broadcast_each (player_tokens : list string) (event : Event)
    (self : GameRoomWebsocketConnectionManager WebSocket) (w : W) : bool * W :=
  match player_tokens with
  | [] => (true, w)
  | player_token :: player_tokens' =>
      match broadcast_one player_token event self w with
      | (true, w) => broadcast_each player_tokens' event self w
      | (false, w) => (false, w)
      end
  end.

Definition broadcast_all (event : Event)
    (self : GameRoomWebsocketConnectionManager WebSocket) (w : W) : bool * W :=
  match connections_map self with
  | [] => (true, w)
  | _ => broadcast_each (connections_map self).*1 event self w
  end.

(** A series of connection attempts, one after the other. *)
Definition connect_all (attempts : list (WebSocket * string))
    (self : GameRoomWebsocketConnectionManager WebSocket) (w : W)
  : GameRoomWebsocketConnectionManager WebSocket * W :=
  foldl (λ '(self, w) '(websocket, player_token),
           connect websocket player_token self w)
    (self, w) attempts.

(** Of a series of attempts, the ones that bring a token not seen before,
    and the sockets of the others. *)
Fixpoint accepted (seen : gset string) (attempts : list (WebSocket * string))
  : list (string * WebSocket) :=
  match attempts with
  | [] => []
  | (websocket, player_token) :: attempts' =>
      if bool_decide (player_token ∈ seen) then accepted seen attempts'
      else (player_token, websocket)
             :: accepted ({[player_token]} ∪ seen) attempts'
  end.

Fixpoint refused (seen : gset string) (attempts : list (WebSocket * string))
  : list WebSocket :=
  match attempts with
  | [] => []
  | (websocket, player_token) :: attempts' =>
      if bool_decide (player_token ∈ seen) then
        websocket :: refused seen attempts'
      else refused ({[player_token]} ∪ seen) attempts'
  end.

(** Sending an event to sockets one after the other, up to the first
    send that raises. *)
Fixpoint send_in_order (event : Event) (websockets : list WebSocket) (w : W)
  : bool * W :=
  match websockets with
  | [] => (true, w)
  | websocket :: websockets' =>
      match websocket_send_json websocket event w with
      | (true, w) => send_in_order event websockets' w
      | (false, w) => (false, w)
      end
  end.

End Manager.

(** Sockets that are numbers and record what happens to them; sending to
    socket 0 raises. *)
Inductive Traffic :=
  | Closed (websocket : nat) (reason : string)
  | Sent (websocket : nat) (event : string).

#[global] Instance recording : Environment (list Traffic) nat string := {|
  websocket_close websocket reason w := (w ++ [Closed websocket reason])%list;
  websocket_send_json websocket event w :=
    match websocket with
    | O => (false, w)
    | S _ => (true, (w ++ [Sent websocket event])%list)
    end;
|}.

End websocket.

(** ** An in-memory store, to run the services on examples *)

Module memory.
Import model.

Record Redis := mkRedis {
  entries : gmap string (GameRoom * Z);
  channel : list GameRoomEvent;
}.

#[global] Instance Redis_environment : service.Environment Redis := {|
  service.make_game_room_key code := "game_room:" +:+ code;
  service.make_unique_game_room_code r := "ROOM0";
  service.get_thumbnail topic := None;
  service._GAME_ROOM_TTL := 7200;
  service._GAME_ROOM_MAX_PLAYER_COUNT := 8;
  service.read_game_room r code := fst <$> entries r !! ("game_room:" +:+ code);
  service.redis_set key room ex r :=
    mkRedis (<[key := (room, ex)]> (entries r)) (channel r);
  service.publish event r := mkRedis (entries r) (channel r ++ [event]);
|}.

Definition question (i : string) : MultipleChoiceQuestion :=
  {| id := i; model.question := "Question " +:+ i;
     choices := ["A"; "B"; "C"; "D"]; answer := "A" |}.

(** A room in progress on [questions], at the question with id [current]. *)
Definition room_in_progress
    (questions : list MultipleChoiceQuestion) (current : option string)
  : GameRoom := {|
  code := "ROOM0"; title := None; topic := "World History";
  owner_id := "user1"; max_player_count := 8; image := None;
  status := IN_PROGRESS; players := []; questions := questions;
  failure_reason := None; current_question_id := current;
|}.

Definition store_with (room : GameRoom) : Redis :=
  mkRedis {[ "game_room:" +:+ code room := (room, 7200) ]} [].

Definition empty : Redis := mkRedis ∅ [].

(** Three questions with distinct ids, and three questions the last of
    which repeats the id of the first. *)
Definition quiz : list MultipleChoiceQuestion :=
  [question "q1"; question "q2"; question "q3"].

Definition quiz_repeating : list MultipleChoiceQuestion :=
  [question "q1"; question "q2"; question "q1"].

End memory.

End Trivia.

(** * The video project services described in the blog posts

    The post on AI-generated video carries the TypeScript sources of the
    project services and of the lambda that starts a project. DynamoDB,
    Step Functions, the JSON functions of the runtime and the helpers that
    the post does not show are operations of an environment. *)

Module Video.

Inductive ProjectStatus :=
  | InProgress | NeedsApproval | Finalizing | Failed | Completed.

#[global] Instance ProjectStatus_eq_dec : EqDecision ProjectStatus.
Proof. solve_decision. Defined.

Record Project := mkProject {
  id : string;
  userId : string;
  topic : string;
  status : ProjectStatus;
  createdAt : string;
}.

#[global] Instance Project_eq_dec : EqDecision Project.
Proof. solve_decision. Defined.

(** [Result<T, string>] of oxide.ts. *)
Inductive Result (T : Type) :=
  | Ok (value : T)
  | Err (error : string).
Arguments Ok {T} value.
Arguments Err {T} error.

(** The parameters of a DynamoDB query. *)
Record QueryInput := mkQueryInput {
  KeyConditionExpression : string;
  ExpressionAttributeNames : gmap string string;
  ExpressionAttributeValues : gmap string string;
}.

Record StartExecutionInput := mkStartExecutionInput {
  input : string;
  stateMachineArn : string;
}.

Inductive RunTimeEnvVariable :=
  | PROJECT_TABLE_NAME
  | START_PROJECT_STATE_MACHINE_ARN.

(** What the lambda runs against. [JSON_parse] yields [None] when
    [JSON.parse] throws, [Event_safeParse] yields the topic when the
    schema [{ topic: string }] accepts the data; [putItem] and [getItems]
    are the methods of [DbClient] that the post leaves out, and yield
    [None] when their promise is rejected; [startExecution] yields [false]
    when its promise is rejected. *)
Class Environment (W JSON : Type) := {
  JSON_parse : string → option JSON;
  Event_safeParse : JSON → option string;
  JSON_stringify : Project → string;
  getEnvVariable : RunTimeEnvVariable → string;
  v4 : W → string * W;
  Date_toISOString : W → string * W;
  putItem : string → Project → W → option (Result Project) * W;
  getItems : string → QueryInput → W → option (Result (list Project)) * W;
  startExecution : StartExecutionInput → W → bool * W;
}.

Record APIGatewayProxyEvent := mkEvent { body : option string }.

Record APIGatewayProxyResult := mkResult {
  statusCode : Z;
  resultBody : string;
}.

(** A lambda answers, or throws. *)
Inductive Answer :=
  | Responds (result : APIGatewayProxyResult)
  | Throws.

Section Lambda.
Context {W JSON : Type} `{Environment W JSON}.

(** [ProjectService.createProject] on the table of the service. *)
Definition createProject (projectTableName userId topic : string) (w : W)
  : option (Result Project) * W :=
  let '(id, w) := v4 w in
  let '(createdAt, w) := Date_toISOString w in
  putItem projectTableName
    {| id := id; userId := userId; topic := topic;
       status := InProgress; createdAt := createdAt |} w.

(** [ProjectService.getProjectsForUser] on the table of the service. *)
Definition getProjectsForUser (projectTableName userId : string) (w : W)
  : option (Result (list Project)) * W :=
  getItems projectTableName
    {| KeyConditionExpression := "#userKey = :userKeyValue";
       ExpressionAttributeNames := {[ "#userKey" := "userId" ]};
       ExpressionAttributeValues := {[ ":userKeyValue" := userId ]} |} w.

Definition isPendingOrActive (project : Project) : bool :=
  bool_decide (status project = InProgress)
  || bool_decide (status project = NeedsApproval).

Definition unknownError : APIGatewayProxyResult :=
  {| statusCode := 500; resultBody := "An unknown error occurred" |}.

(** The handler of the start project lambda. Only what follows the
    construction of the project service is inside [try]. *)
Definition handler (incomingEvent : APIGatewayProxyEvent) (w : W) : Answer * W :=
  match JSON_parse (default EmptyString (body incomingEvent)) with
  | None => (Throws, w)
  | Some data =>
      match Event_safeParse data with
      | None =>
          (Responds {| statusCode := 400; resultBody := "Invalid request body" |}, w)
      | Some topic =>
          let projectTableName := getEnvVariable PROJECT_TABLE_NAME in
          match getProjectsForUser projectTableName "user-1" w with
          | (Some (Ok projectsForUser), w) =>
              if existsb isPendingOrActive projectsForUser then
                (Responds
                   {| statusCode := 409;
                      resultBody := "A Project is already running or needs approval" |},
                 w)
              else
                match createProject projectTableName "user-1" topic w with
                | (Some (Ok project), w) =>
                    let params :=
                      {| input := JSON_stringify project;
                         stateMachineArn :=
                           getEnvVariable START_PROJECT_STATE_MACHINE_ARN |} in
                    match startExecution params w with
                    | (true, w) =>
                        (Responds {| statusCode := 201;
                                     resultBody := JSON_stringify project |}, w)
                    | (false, w) => (Responds unknownError, w)
                    end
                | (_, w) => (Responds unknownError, w)
                end
          | (_, w) => (Responds unknownError, w)
          end
      end
  end.

End Lambda.

(** ** The database client *)

(** What [DbClient<T>] runs against: [documentClient_get] is
    [documentClient.get(params).promise()] followed by [.Item]; it yields
    [None] when the promise is rejected and [Some None] when the answer
    has no item. [schema_safeParse] yields the parsed data when the zod
    schema accepts the item. *)
Class DocumentClient (W Item T : Type) := {
  documentClient_get : string → gmap string string → W → option (option Item) * W;
  schema_safeParse : option Item → option T;
}.

Section DbClient.
Context {W Item T : Type} `{DocumentClient W Item T}.

Definition validateItem (item : option Item) : Result T :=
  match schema_safeParse item with
  | None => Err "error validation item"
  | Some data => Ok data
  end.

Definition getItem (tableName : string) (key : gmap string string) (w : W)
  : Result T * W :=
  match documentClient_get tableName key w with
  | (Some item, w) => (validateItem item, w)
  | (None, w) => (Err "Error retrieving item from DynamoDB", w)
  end.

End DbClient.

(** A client over a table in memory; the schema accepts the projects
    whose topic is not empty. *)
#[global] Instance table_client
  : DocumentClient (gmap string Project) Project Project := {|
  documentClient_get tableName key w :=
    match key !! "id" with
    | Some id => (Some (w !! id), w)
    | None => (None, w)
    end;
  schema_safeParse item :=
    match item with
    | Some project =>
        match topic project with
        | EmptyString => None
        | String _ _ => Some project
        end
    | None => None
    end;
|}.

(** A table in memory: the items are kept in the order they were put,
    every put succeeds, a query finds the items of the user, and
    executions start as long as [executions_left] allows. *)
Record Cloud := mkCloud {
  items : list Project;
  started : list StartExecutionInput;
  executions_left : nat;
  clock : nat;
}.

Definition tick (name : string) (n : nat) : string :=
  name +:+ String (ascii_of_nat (48 + n mod 10)) EmptyString.

#[global] Instance Cloud_environment : Environment Cloud string := {|
  JSON_parse text :=
    match text with
    | String "{" _ => Some text
    | _ => None
    end;
  Event_safeParse data :=
    match data with
    | String "{" (String "t" (String "=" topic)) => Some topic
    | _ => None
    end;
  JSON_stringify project := "{id=" +:+ id project;
  getEnvVariable variable :=
    match variable with
    | PROJECT_TABLE_NAME => "projects"
    | START_PROJECT_STATE_MACHINE_ARN => "arn:start-project"
    end;
  v4 w :=
    (tick "id-" (clock w),
     mkCloud (items w) (started w) (executions_left w) (S (clock w)));
  Date_toISOString w :=
    (tick "2023-06-02T15:22:0" (clock w),
     mkCloud (items w) (started w) (executions_left w) (S (clock w)));
  putItem table project w :=
    (Some (Ok project),
     mkCloud (items w ++ [project]) (started w) (executions_left w) (clock w));
  getItems table query w :=
    (Some (Ok (filter (λ project,
                 ExpressionAttributeValues query !! ":userKeyValue"
                 = Some (userId project)) (items w))),
     w);
  startExecution params w :=
    match executions_left w with
    | O => (false, w)
    | S n =>
        (true, mkCloud (items w) (started w ++ [params]) n (clock w))
    end;
|}.

End Video.

Example api_sanity :
  Api.stringify {| Api.name := "John Doe" |} = Api.johnDoe
  ∧ String.length Api.johnDoe = 19%nat
  ∧ Api.escapeString (String "010" (String "001" "a\b")) = "\n\u0001a\\b".
Proof. vm_compute. auto. Qed.

Example content_sanity :
  Content.getTime (Content.pubDatetime Content.post_ai_video) = 1685719320
  ∧ Content.getTime (Content.pubDatetime Content.post_trivia_1) = 1725376920
  ∧ Content.getTime (Content.pubDatetime Content.post_trivia_3) = 1725981720
  ∧ Content.listPosts {| Content.includeDrafts := false |} Content.blog
    = [Content.post_trivia_3; Content.post_trivia_1; Content.post_trivia_2; Content.post_ai_video]
  ∧ Content.pageCount (Config.postPerPage Config.SITE) Content.blog = 2%nat
  ∧ Uri.isURL "https://willredington.com/" = true
  ∧ Uri.isURL "mailto:will86325@gmail.com" = false
  ∧ Uri.isURL "willredington.com" = false
  ∧ Uri.isURL "https:///x" = false
  ∧ Uri.isMailto "mailto:will86325@gmail.com" = true
  ∧ Uri.isMailto "mailto:will86325" = false
  ∧ forallb Uri.isLinkTarget (Config.href <$> Config.SOCIALS) = true.
Proof. vm_compute. repeat split. Qed.

(** * Properties of the content collection *)

Section ContentProperties.
Import Content.

Implicit Types (p q : BlogPost) (l posts : list BlogPost) (f : ListFilter).

(** ** The sort is a permutation and yields a descending listing *)

Lemma insertByDate_perm p l : insertByDate p l ≡ₚ p :: l.
Proof.
  induction l as [|q l IH]; simpl; [done|].
  destruct (_ <=? _); [done|].
  by rewrite IH, Permutation_swap.
Qed.

Lemma sortByDateDesc_perm l : sortByDateDesc l ≡ₚ l.
Proof.
  induction l as [|p l IH]; simpl; [done|].
  by rewrite insertByDate_perm, IH.
Qed.

#[local] Instance notOlder_trans : Transitive notOlder.
Proof. unfold notOlder. intros p q r ? ?. lia. Qed.

Lemma insertByDate_sorted p l :
  StronglySorted notOlder l → StronglySorted notOlder (insertByDate p l).
Proof.
  induction 1 as [|q l Hl IH Hq]; simpl.
  { repeat constructor. }
  destruct (Z.leb_spec (getTime (pubDatetime q)) (getTime (pubDatetime p))) as [Hle|Hlt].
  - constructor; [by constructor|].
    constructor; [done|].
    eapply Forall_impl; [exact Hq|].
    intros r Hr. by transitivity q.
  - constructor; [done|].
    rewrite insertByDate_perm.
    constructor; [|done].
    unfold notOlder. lia.
Qed.

Lemma sortByDateDesc_sorted l : StronglySorted notOlder (sortByDateDesc l).
Proof.
  induction l as [|p l IH]; simpl; [constructor|].
  by apply insertByDate_sorted.
Qed.

Lemma listPosts_perm f posts :
  listPosts f posts ≡ₚ filter (λ p, listed f p = true) posts.
Proof. apply sortByDateDesc_perm. Qed.

Lemma elem_of_listPosts f posts p :
  p ∈ listPosts f posts ↔ listed f p = true ∧ p ∈ posts.
Proof. by rewrite listPosts_perm, list_elem_of_filter. Qed.

Lemma listPosts_sorted f posts : StronglySorted notOlder (listPosts f posts).
Proof. apply sortByDateDesc_sorted. Qed.

(** ** Slugs identify posts *)

Lemma filter_none {A} (P : A → Prop) `{!∀ x, Decision (P x)} (l : list A) :
  (∀ x, x ∈ l → ¬ P x) → filter P l = [].
Proof.
  induction l as [|x l IH]; intros Hno; [done|].
  rewrite filter_cons_False by (apply Hno; left).
  apply IH. intros y Hy. apply Hno. by right.
Qed.

Lemma unique_slug_filter l p :
  NoDup (postSlug <$> l) → p ∈ l →
  filter (λ q, postSlug q = postSlug p) l = [p].
Proof.
  induction l as [|q l IH]; intros Hnd Hin; [by apply elem_of_nil in Hin|].
  rewrite fmap_cons in Hnd. apply NoDup_cons in Hnd as [Hq Hnd].
  apply elem_of_cons in Hin as [->|Hin].
  - rewrite filter_cons_True by done. f_equal.
    apply filter_none. intros r Hr Heq.
    apply Hq. rewrite <- Heq. by apply list_elem_of_fmap_2.
  - rewrite filter_cons_False; [by apply IH|].
    intros Heq. apply Hq. rewrite Heq. by apply list_elem_of_fmap_2.
Qed.

Lemma listPosts_unique_slugs f posts :
  NoDup (postSlug <$> posts) → NoDup (postSlug <$> listPosts f posts).
Proof.
  intros Hnd. rewrite listPosts_perm.
  apply (sublist_NoDup _ _ Hnd).
  apply fmap_sublist, sublist_filter.
Qed.

(** ** Lookup by slug *)

Lemma getPostBySlug_found posts slug p :
  getPostBySlug posts slug = Found p → p ∈ posts ∧ postSlug p = slug.
Proof.
  induction posts as [|q posts IH]; simpl; [done|].
  destruct (String.eqb_spec (postSlug q) slug) as [Heq|Hne].
  - intros [= ->]. split; [left|done].
  - intros H. destruct (IH H). split; [by right|done].
Qed.

Lemma getPostBySlug_failed posts slug e :
  getPostBySlug posts slug = Failed e →
  e = NotFound ∧ slug ∉ postSlug <$> posts.
Proof.
  induction posts as [|q posts IH]; simpl.
  - intros [= <-]. split; [done|]. apply not_elem_of_nil.
  - destruct (String.eqb_spec (postSlug q) slug) as [Heq|Hne]; [done|].
    intros H. destruct (IH H) as [-> Hnot]. split; [done|].
    rewrite not_elem_of_cons. auto.
Qed.

Lemma getPostBySlug_absent posts slug :
  slug ∉ postSlug <$> posts → getPostBySlug posts slug = Failed NotFound.
Proof.
  intros Hnot. destruct (getPostBySlug posts slug) as [p|e] eqn:E.
  - apply getPostBySlug_found in E as [Hin <-].
    destruct Hnot. by apply list_elem_of_fmap_2.
  - by apply getPostBySlug_failed in E as [-> _].
Qed.

Lemma getPostBySlug_present posts p :
  NoDup (postSlug <$> posts) → p ∈ posts →
  getPostBySlug posts (postSlug p) = Found p.
Proof.
  intros Hnd Hin.
  destruct (getPostBySlug posts (postSlug p)) as [q|e] eqn:E.
  - apply getPostBySlug_found in E as [Hq Heq]. f_equal.
    assert (Hf : q ∈ filter (λ r, postSlug r = postSlug p) posts)
      by (by apply list_elem_of_filter).
    rewrite (unique_slug_filter posts p Hnd Hin) in Hf.
    by apply list_elem_of_singleton in Hf.
  - apply getPostBySlug_failed in E as [_ Hnot].
    destruct Hnot. by apply list_elem_of_fmap_2.
Qed.

(** ** Pagination *)

Lemma listPosts_length posts :
  length (listPosts {| includeDrafts := false |} posts) = nonDraftCount posts.
Proof.
  rewrite listPosts_perm. unfold nonDraftCount, nonDrafts. f_equal.
  apply list_filter_iff. intros p. unfold listed. simpl.
  by destruct (draft p).
Qed.

Lemma paginate_length {A} (n : nat) (l : list A) :
  Z.of_nat (length (paginate (S n) l))
  = (Z.of_nat (length l) + Z.of_nat n) / (Z.of_nat n + 1).
Proof.
  remember (length l) as m eqn:Hm.
  revert l Hm. induction (lt_wf m) as [m _ IH]. intros [|x l] ->.
  - simp paginate. simpl. symmetry. apply Z.div_small. lia.
  - simp paginate. cbn [length].
    rewrite Nat2Z.inj_succ, (IH (length (drop n l))); [|rewrite length_drop; simpl; lia|done].
    rewrite length_drop.
    destruct (decide (length l ≤ n)%nat) as [Hle|Hgt].
    + replace (length l - n)%nat with 0%nat by lia.
      rewrite (Z.div_small (Z.of_nat 0 + _)) by lia.
      apply (Z.div_unique_pos _ _ _ (Z.of_nat (length l))); lia.
    + rewrite Nat2Z.inj_sub by lia.
      replace (Z.of_nat (S (length l)) + Z.of_nat n)
        with (Z.of_nat (length l) - Z.of_nat n + Z.of_nat n + 1 * (Z.of_nat n + 1)) by lia.
      rewrite Z.div_add by lia. lia.
Qed.

Lemma Qceiling_div (a : Z) (b : positive) :
  0 ≤ a → Qceiling (a # b) = (a + Z.pos b - 1) / Z.pos b.
Proof.
  intros Ha. unfold Qceiling, Qfloor. simpl.
  pose proof (Z.div_mod (- a) (Z.pos b) ltac:(lia)) as Hdm.
  pose proof (Z.mod_pos_bound (- a) (Z.pos b) ltac:(lia)) as Hb.
  apply (Z.div_unique_pos _ _ _ (Z.pos b - 1 - (- a) mod Z.pos b)); lia.
Qed.

End ContentProperties.

(** * The content collection provider meets its specification *)

Section ContentSpecification.
Import Content.

(** C1. In a collection whose slugs are unique, every post with
    [draft = false] appears exactly once in
    [listPosts {includeDrafts: false}] (the entries of the listing that
    carry its slug are the post itself, once), the listing is ordered by
    [pubDatetime] descending, and every post with [draft = true] is absent
    from [listPosts {includeDrafts: false}] and present in
    [listPosts {includeDrafts: true}]. *)
Theorem listPosts_drafts_and_order (posts : list BlogPost) :
  NoDup (postSlug <$> posts) →
  (∀ p, p ∈ posts → draft p = false →
     filter (λ q, postSlug q = postSlug p)
       (listPosts {| includeDrafts := false |} posts) = [p])
  ∧ StronglySorted notOlder (listPosts {| includeDrafts := false |} posts)
  ∧ (∀ p, p ∈ posts → draft p = true →
       (p ∉ listPosts {| includeDrafts := false |} posts)
       ∧ (p ∈ listPosts {| includeDrafts := true |} posts)).
Proof.
  intros Hnd. split; [|split].
  - intros p Hin Hdraft.
    apply unique_slug_filter; [by apply listPosts_unique_slugs|].
    apply elem_of_listPosts. split; [|done].
    unfold listed. by rewrite Hdraft.
  - apply listPosts_sorted.
  - intros p Hin Hdraft. split.
    + rewrite elem_of_listPosts. unfold listed. rewrite Hdraft.
      simpl. by intros [? _].
    + by apply elem_of_listPosts.
Qed.

(** The posts of the repository have pairwise distinct slugs. *)
Lemma blog_unique_slugs : NoDup (postSlug <$> blog).
Proof. apply (bool_decide_unpack _). vm_compute. exact I. Defined.

Lemma listPosts_drafts_and_order_witness :
  NoDup (postSlug <$> blog)
  ∧ (∀ p, p ∈ blog → draft p = false →
       filter (λ q, postSlug q = postSlug p)
         (listPosts {| includeDrafts := false |} blog) = [p])
  ∧ StronglySorted notOlder (listPosts {| includeDrafts := false |} blog)
  ∧ (∀ p, p ∈ blog → draft p = true →
       (p ∉ listPosts {| includeDrafts := false |} blog)
       ∧ (p ∈ listPosts {| includeDrafts := true |} blog)).
Proof.
  split; [exact blog_unique_slugs|].
  exact (listPosts_drafts_and_order blog blog_unique_slugs).
Defined.

(** C2. In a collection whose slugs are unique, [getPostBySlug] returns
    exactly the post that carries the slug whenever some post does; it
    returns [NotFound] for every slug that no post carries; and a failure
    is always [NotFound], reported only for a slug that no post carries. *)
Theorem getPostBySlug_found_or_NotFound (posts : list BlogPost) :
  NoDup (postSlug <$> posts) →
  (∀ p, p ∈ posts → getPostBySlug posts (postSlug p) = Found p)
  ∧ (∀ slug, slug ∉ postSlug <$> posts →
       getPostBySlug posts slug = Failed NotFound)
  ∧ (∀ slug e, getPostBySlug posts slug = Failed e →
       e = NotFound ∧ slug ∉ postSlug <$> posts).
Proof.
  intros Hnd. split; [|split].
  - intros p Hin. by apply getPostBySlug_present.
  - apply getPostBySlug_absent.
  - apply getPostBySlug_failed.
Qed.

Lemma getPostBySlug_found_or_NotFound_witness :
  NoDup (postSlug <$> blog)
  ∧ (∀ p, p ∈ blog → getPostBySlug blog (postSlug p) = Found p)
  ∧ (∀ slug, slug ∉ postSlug <$> blog →
       getPostBySlug blog slug = Failed NotFound)
  ∧ (∀ slug e, getPostBySlug blog slug = Failed e →
       e = NotFound ∧ slug ∉ postSlug <$> blog).
Proof.
  split; [exact blog_unique_slugs|].
  exact (getPostBySlug_found_or_NotFound blog blog_unique_slugs).
Defined.

(** C5. For every collection and every positive page size, the number of
    listing pages equals [ceil (nonDraftCount / postPerPage)]; it is 0
    when the collection has no non-draft post. *)
Theorem pageCount_is_ceiling (posts : list BlogPost) (postPerPage : Z) :
  0 < postPerPage →
  Z.of_nat (pageCount postPerPage posts)
  = Qceiling (Z.of_nat (nonDraftCount posts) # Z.to_pos postPerPage)
  ∧ (nonDraftCount posts = 0%nat → pageCount postPerPage posts = 0%nat).
Proof.
  intros Hpos.
  assert (Hcount : Z.of_nat (pageCount postPerPage posts)
                   = (Z.of_nat (nonDraftCount posts) + postPerPage - 1) / postPerPage).
  { unfold pageCount.
    destruct (Z.to_nat postPerPage) as [|n] eqn:Hn; [lia|].
    rewrite paginate_length, listPosts_length.
    f_equal; lia. }
  split.
  - rewrite Hcount, Qceiling_div by lia.
    rewrite Z2Pos.id by done. done.
  - intros Hzero. rewrite Hzero in Hcount.
    rewrite Z.div_small in Hcount by lia. lia.
Qed.

Lemma pageCount_is_ceiling_witness :
  0 < Config.postPerPage Config.SITE
  ∧ Z.of_nat (pageCount (Config.postPerPage Config.SITE) blog)
    = Qceiling (Z.of_nat (nonDraftCount blog) # Z.to_pos (Config.postPerPage Config.SITE))
  ∧ (nonDraftCount blog = 0%nat
     → pageCount (Config.postPerPage Config.SITE) blog = 0%nat).
Proof.
  assert (Hpos : 0 < Config.postPerPage Config.SITE) by (simpl; lia).
  split; [exact Hpos|].
  exact (pageCount_is_ceiling blog (Config.postPerPage Config.SITE) Hpos).
Defined.

(** C10. The collection holds two distinct non-draft posts published at
    the same instant, 2024-09-03T15:22:00Z; hence two different orders of
    the non-draft posts are both descending by [pubDatetime], one with
    part 1 ahead of part 2 and one with part 2 ahead of part 1. *)
Theorem equal_pubDatetime_two_orders :
  post_trivia_1 ∈ blog ∧ post_trivia_2 ∈ blog
  ∧ post_trivia_1 ≠ post_trivia_2
  ∧ draft post_trivia_1 = false ∧ draft post_trivia_2 = false
  ∧ pubDatetime post_trivia_1 = mkDateTime 2024 9 3 15 22 0
  ∧ pubDatetime post_trivia_2 = mkDateTime 2024 9 3 15 22 0
  ∧ ∃ l1 l2 : list BlogPost,
      l1 = [post_trivia_3; post_trivia_1; post_trivia_2; post_ai_video]
      ∧ l2 = [post_trivia_3; post_trivia_2; post_trivia_1; post_ai_video]
      ∧ l1 ≠ l2
      ∧ l1 ≡ₚ nonDrafts blog ∧ l2 ≡ₚ nonDrafts blog
      ∧ StronglySorted notOlder l1 ∧ StronglySorted notOlder l2.
Proof.
  split; [by apply (bool_decide_unpack _)|].
  split; [by apply (bool_decide_unpack _)|].
  split; [discriminate|].
  do 4 (split; [reflexivity|]).
  eexists _, _.
  do 2 (split; [reflexivity|]).
  split; [discriminate|].
  split; [by apply (bool_decide_unpack _); vm_compute|].
  split; [by apply (bool_decide_unpack _); vm_compute|].
  split; by apply (bool_decide_unpack _); vm_compute.
Qed.

(** A collection with a draft: the draft is listed only on request, and
    is still found by its slug. *)
Example listing_with_a_draft :
  let wip := {| author := "Will Redington";
                pubDatetime := mkDateTime 2024 9 5 8 0 0;
                title := "Work in progress";
                postSlug := "work-in-progress";
                featured := false;
                draft := true;
                tags := [];
                ogImage := EmptyString;
                description := "Not yet published" |} in
  listPosts {| includeDrafts := false |} (wip :: blog)
  = [post_trivia_3; post_trivia_1; post_trivia_2; post_ai_video]
  ∧ listPosts {| includeDrafts := true |} (wip :: blog)
    = [post_trivia_3; wip; post_trivia_1; post_trivia_2; post_ai_video]
  ∧ getPostBySlug (wip :: blog) "work-in-progress" = Found wip
  ∧ getPostBySlug (wip :: blog) "no-such-post" = Failed NotFound
  ∧ pageCount 3 (wip :: blog) = 2%nat
  ∧ paginate 3 (listPosts {| includeDrafts := false |} (wip :: blog))
    = [[post_trivia_3; post_trivia_1; post_trivia_2]; [post_ai_video]].
Proof. vm_compute. repeat split. Qed.

End ContentSpecification.

(** * The site configuration meets its specification *)

Section ConfigSpecification.
Import Config.

(** C4. [SITE] is a value with the seven fields [website], [author],
    [desc] (the description), [title], [ogImage] (strings),
    [lightAndDarkMode] (a boolean) and [postPerPage] (the number of posts
    per page, an integer); its [website] is a URL and its [postPerPage] is
    positive. *)
Theorem SITE_well_formed :
  ∃ (w a d t o : string) (m : bool) (n : Z),
    SITE = {| website := w; author := a; desc := d; title := t;
              ogImage := o; lightAndDarkMode := m; postPerPage := n |}
    ∧ Uri.isURL w = true
    ∧ 0 < n.
Proof.
  exists (website SITE), (author SITE), (desc SITE), (title SITE),
    (ogImage SITE), (lightAndDarkMode SITE), (postPerPage SITE).
  split; [reflexivity|]. split; [by vm_compute | simpl; lia].
Qed.

(** C6. The [href] of every entry of [SOCIALS] is a syntactically valid
    URL or a [mailto:] URI. *)
Theorem SOCIALS_href_valid :
  Forall (λ s, Uri.isURL (href s) = true ∨ Uri.isMailto (href s) = true)
    SOCIALS.
Proof.
  apply (bool_decide_unpack _). by vm_compute.
Qed.

(** C7. The rendered social links are exactly the entries of the sequence
    with [active = true]: an entry is rendered if and only if it is an
    active entry of the sequence, as often as it occurs there, and the
    rendered entries keep their relative order. For [SOCIALS], whose
    entries are all active, that is the whole sequence. *)
Theorem renderedSocials_active_in_order :
  (∀ socials : list SocialObject,
     (∀ s, s ∈ renderedSocials socials ↔ s ∈ socials ∧ active s = true)
     ∧ (∀ s, active s = true →
          length (filter (λ x, x = s) (renderedSocials socials))
          = length (filter (λ x, x = s) socials))
     ∧ renderedSocials socials `sublist_of` socials)
  ∧ renderedSocials SOCIALS = SOCIALS.
Proof.
  split; [|reflexivity].
  intros socials. unfold renderedSocials. split; [|split].
  - intros s. rewrite list_elem_of_filter. tauto.
  - intros s Hs. rewrite list_filter_filter. f_equal.
    apply list_filter_iff. intros x. split; [tauto|]. by intros ->.
  - apply sublist_filter.
Qed.

End ConfigSpecification.

(** * The API stub meets its specification *)

Section ApiSpecification.
Import Api.

Lemma handler_run (req : NextApiRequest) (st : State) :
  handler req st
  = (tt, {| store := store st;
            res := {| statusCode := 200;
                      responseHeaders :=
                        <["Content-Type" := "application/json; charset=utf-8"]>
                          (responseHeaders (res st));
                      responseBody := Some johnDoe |} |}).
Proof. reflexivity. Qed.

(** C3. Whatever the request (body, headers or anything else) and whatever
    state the server is in, the handler answers with status 200 and the
    JSON body [{"name":"John Doe"}], sent as [application/json]. *)
Theorem handler_responds_200_john_doe (req : NextApiRequest) (st : State) :
  statusCode (respond req st) = 200
  ∧ responseBody (respond req st) = Some johnDoe
  ∧ responseHeaders (respond req st) !! "Content-Type"
    = Some "application/json; charset=utf-8".
Proof.
  unfold respond. rewrite handler_run. simpl.
  split; [done|]. split; [done|]. apply lookup_insert_eq.
Qed.

(** C8. The handler is deterministic and touches no state: any two
    requests get identical responses, whatever the bindings of the program
    are when they arrive, and the bindings of the program are the same
    after a request as before. *)
Theorem handler_deterministic_effect_free
    (req1 req2 : NextApiRequest) (st : State) (bindings : gmap string string) :
  handler req1 st = handler req2 st
  ∧ respond req1 st = respond req2 {| store := bindings; res := res st |}
  ∧ store (snd (handler req1 st)) = store st.
Proof.
  unfold respond. rewrite !handler_run. done.
Qed.

(** C9. The handler does not look at the HTTP method: the same request
    sent with any method gets the same response, which has status 200 and
    the body [{"name":"John Doe"}]; the status is never 405 nor any other
    error status. *)
Theorem handler_ignores_method
    (m : option string) (req : NextApiRequest) (st : State) :
  respond (withMethod m req) st = respond req st
  ∧ statusCode (respond (withMethod m req) st) = 200
  ∧ responseBody (respond (withMethod m req) st) = Some johnDoe
  ∧ statusCode (respond (withMethod m req) st) ≠ 405
  ∧ ¬ (400 ≤ statusCode (respond (withMethod m req) st)).
Proof.
  unfold respond. rewrite !handler_run. simpl.
  repeat split; try done; lia.
Qed.

End ApiSpecification.

Example range_examples :
  Trivia.task.range 10 0 (-2) = [10; 8; 6; 4; 2]
  ∧ Trivia.task.range 0 5 2 = [0; 2; 4]
  ∧ Trivia.task.range 0 6 2 = [0; 2; 4]
  ∧ Trivia.task.range 3 3 1 = []
  ∧ Trivia.task.range 0 10 (-1) = []
  ∧ Trivia.task.range 9 0 (-3) = [9; 6; 3].
Proof. vm_compute. repeat split. Qed.

(** * The game room service *)

(** Runs the [async] steps of the goal. *)
Ltac run_async :=
  unfold Trivia.service.get_game_room_by_code, Trivia.service.redis_client_set,
    Trivia.service.emit_game_room_event, Trivia.service.raise;
  unfold mbind, mret, Trivia.service.Async_bind, Trivia.service.Async_ret; cbn.

Section GameRoomService.
Import Trivia.model Trivia.service.
Context {R : Type} `{Environment R}.

Implicit Types (r : R) (g : GameRoom) (q : MultipleChoiceQuestion).

(** ** Single calls *)

Lemma update_game_room_missing r game_room_code partial :
  read_game_room r game_room_code = None →
  update_game_room game_room_code partial r
  = (Raised (ValueError "Game room does not exist"), r).
Proof.
  intros Hread. unfold update_game_room. run_async. by rewrite Hread.
Qed.

Lemma update_game_room_stored r game_room_code partial g :
  read_game_room r game_room_code = Some g →
  update_game_room game_room_code partial r
  = (Returned (model_copy g partial),
     publish (GameRoomUpdatedEvent (model_copy g partial))
       (redis_set (make_game_room_key game_room_code) (model_copy g partial)
          _GAME_ROOM_TTL r)).
Proof.
  intros Hread. unfold update_game_room. run_async. by rewrite Hread.
Qed.

Lemma current_question_index_Some g i :
  current_question_index g = Some i →
  ∃ q, questions g !! i = Some q
       ∧ current_question_id g = Some (id q)
       ∧ ∀ j q', questions g !! j = Some q' → (j < i)%nat →
           current_question_id g ≠ Some (id q').
Proof.
  unfold current_question_index. intros Hfind.
  destruct (list_find _ _) as [[i' q]|] eqn:E; simplify_eq/=.
  apply list_find_Some in E as (Hq & Hid & Hfirst).
  exists q. split; [done|]. split; [done|].
  intros j q' Hj Hlt Heq. by apply (Hfirst j q').
Qed.

Lemma current_question_index_None g :
  current_question_index g = None →
  ∀ q, q ∈ questions g → current_question_id g ≠ Some (id q).
Proof.
  unfold current_question_index. intros Hfind q Hq Heq.
  destruct (list_find _ _) as [[i' q']|] eqn:E; simplify_eq/=.
  rewrite list_find_None in E. rewrite Forall_forall in E.
  by apply (E q).
Qed.

#[local] Arguments update_game_room : simpl never.

Lemma cycle_game_room_advances r game_room_code g i q' :
  read_game_room r game_room_code = Some g →
  status g = IN_PROGRESS →
  current_question_index g = Some i →
  questions g !! S i = Some q' →
  cycle_game_room game_room_code r
  = (Returned false,
     let g' := update_field g (set_current_question_id (Some (id q'))) in
     publish (GameRoomUpdatedEvent g')
       (redis_set (make_game_room_key game_room_code) g' _GAME_ROOM_TTL r)).
Proof.
  intros Hread Hstatus Hindex Hnext.
  unfold cycle_game_room. run_async. rewrite Hread.
  rewrite decide_False by (by rewrite Hstatus; intros []).
  rewrite Hindex.
  rewrite decide_False by (apply lookup_lt_Some in Hnext; lia).
  rewrite Hnext.
  by rewrite (update_game_room_stored _ _ _ g).
Qed.

Lemma cycle_game_room_completes r game_room_code g i :
  read_game_room r game_room_code = Some g →
  status g = IN_PROGRESS →
  current_question_index g = Some i →
  (length (questions g) ≤ S i)%nat →
  cycle_game_room game_room_code r
  = (Returned true,
     let g' := update_field g (set_status COMPLETED) in
     publish (GameRoomUpdatedEvent g')
       (redis_set (make_game_room_key game_room_code) g' _GAME_ROOM_TTL r)).
Proof.
  intros Hread Hstatus Hindex Hlast.
  unfold cycle_game_room. run_async. rewrite Hread.
  rewrite decide_False by (by rewrite Hstatus; intros []).
  rewrite Hindex, decide_True by done.
  by rewrite (update_game_room_stored _ _ _ g).
Qed.

(** In a list of questions with distinct ids, the current question is
    found where it is. *)
Lemma current_question_index_distinct g i q :
  NoDup (id <$> questions g) →
  questions g !! i = Some q →
  current_question_id g = Some (id q) →
  current_question_index g = Some i.
Proof.
  intros Hnd Hq Hcur. unfold current_question_index.
  assert (Hfind : list_find (λ question, Some (id question) = current_question_id g)
                    (questions g) = Some (i, q)).
  { apply list_find_Some. split; [done|]. split; [done|].
    intros j q' Hj Hlt Heq. rewrite Hcur in Heq. injection Heq as Heq.
    assert (j = i); [|lia].
    eapply NoDup_lookup; [exact Hnd| |].
    - by rewrite list_lookup_fmap, Hj.
    - rewrite list_lookup_fmap, Hq. simpl. by f_equal. }
  by rewrite Hfind.
Qed.

Lemma repeat_cycle_S n game_room_code r :
  repeat_cycle (S n) game_room_code r
  = (fst (cycle_game_room game_room_code r)
       :: fst (repeat_cycle n game_room_code (snd (cycle_game_room game_room_code r))),
     snd (repeat_cycle n game_room_code (snd (cycle_game_room game_room_code r)))).
Proof.
  cbn [repeat_cycle].
  destruct (cycle_game_room game_room_code r) as [o r']. cbn [fst snd].
  by destruct (repeat_cycle n game_room_code r') as [os r''].
Qed.

(** ** Failure *)

Lemma cycle_game_room_raised_state r game_room_code e :
  fst (cycle_game_room game_room_code r) = Raised e →
  snd (cycle_game_room game_room_code r) = r.
Proof.
  unfold cycle_game_room. run_async.
  destruct (read_game_room r game_room_code) as [g|]; [|done].
  destruct (decide _); [done|].
  destruct (current_question_index g) as [i|]; [|done].
  destruct (decide _).
  - destruct (update_game_room _ _ r) as [[g'|e'] r'] eqn:Hupd; [done|].
    destruct (read_game_room r game_room_code) as [g''|] eqn:Hread.
    + by rewrite (update_game_room_stored _ _ _ g'') in Hupd.
    + rewrite update_game_room_missing in Hupd by done. by injection Hupd as _ <-.
  - destruct (questions g !! S i) as [q'|]; [|done].
    destruct (update_game_room _ _ r) as [[g'|e'] r'] eqn:Hupd; [done|].
    destruct (read_game_room r game_room_code) as [g''|] eqn:Hread.
    + by rewrite (update_game_room_stored _ _ _ g'') in Hupd.
    + rewrite update_game_room_missing in Hupd by done. by injection Hupd as _ <-.
Qed.

(** X1. A call of [cycle_game_room] that raises leaves the store as it
    was, and raises for one of three reasons: the room does not exist, the
    room is not in progress, or no question carries the current question
    id. *)
Theorem cycle_game_room_failure r game_room_code e :
  fst (cycle_game_room game_room_code r) = Raised e →
  snd (cycle_game_room game_room_code r) = r
  ∧ ((read_game_room r game_room_code = None
      ∧ e = GameRoomNotFoundException "Game room does not exist")
     ∨ (∃ g, read_game_room r game_room_code = Some g
             ∧ status g ≠ IN_PROGRESS
             ∧ e = GameRoomStatusException "Game room is not in progress")
     ∨ (∃ g, read_game_room r game_room_code = Some g
             ∧ status g = IN_PROGRESS
             ∧ (∀ q, q ∈ questions g → current_question_id g ≠ Some (id q))
             ∧ e = QuestionNotFoundException "Current question not found")).
Proof.
  destruct (read_game_room r game_room_code) as [g|] eqn:Hread.
  - destruct (decide (status g = IN_PROGRESS)) as [Hstatus|Hstatus].
    + destruct (current_question_index g) as [i|] eqn:Hindex.
      * destruct (decide (length (questions g) ≤ S i)%nat) as [Hlast|Hmore].
        { by rewrite (cycle_game_room_completes r _ g i). }
        destruct (lookup_lt_is_Some_2 (questions g) (S i)) as [q' Hq']; [lia|].
        by rewrite (cycle_game_room_advances r _ g i q').
      * unfold cycle_game_room. run_async. rewrite Hread.
        rewrite decide_False by (by intros []). rewrite Hindex. simpl.
        intros [= <-]. split; [done|]. right; right. exists g.
        eauto using current_question_index_None.
    + unfold cycle_game_room. run_async. rewrite Hread.
      rewrite decide_True by done. simpl.
      intros [= <-]. split; [done|]. right; left. by exists g.
  - unfold cycle_game_room. run_async. rewrite Hread. simpl.
    intros [= <-]. split; [done|]. by left.
Qed.

(** ** Success *)

(** X2. A call of [cycle_game_room] that returns found a room in progress
    whose current question id is carried by some question; [i] being the
    index of the first such question, the call returns [true] exactly when
    [i] is the last index. It writes the room once and emits one update
    event; the written room differs from the stored one in its status
    alone, now [COMPLETED], when the call returns [true], and in its
    current question id alone, now that of question [i + 1], otherwise. *)
Theorem cycle_game_room_success r game_room_code finished :
  fst (cycle_game_room game_room_code r) = Returned finished →
  ∃ g i,
    read_game_room r game_room_code = Some g
    ∧ status g = IN_PROGRESS
    ∧ current_question_index g = Some i
    ∧ (finished = true ↔ S i = length (questions g))
    ∧ ∃ g',
        snd (cycle_game_room game_room_code r)
        = publish (GameRoomUpdatedEvent g')
            (redis_set (make_game_room_key game_room_code) g' _GAME_ROOM_TTL r)
        ∧ if finished then g' = update_field g (set_status COMPLETED)
          else ∃ q', questions g !! S i = Some q'
                     ∧ g' = update_field g (set_current_question_id (Some (id q'))).
Proof.
  intros Hret.
  destruct (read_game_room r game_room_code) as [g|] eqn:Hread; cycle 1.
  { revert Hret. unfold cycle_game_room. run_async. by rewrite Hread. }
  destruct (decide (status g = IN_PROGRESS)) as [Hstatus|Hstatus]; cycle 1.
  { revert Hret. unfold cycle_game_room. run_async. rewrite Hread.
    by rewrite decide_True. }
  destruct (current_question_index g) as [i|] eqn:Hindex; cycle 1.
  { revert Hret. unfold cycle_game_room. run_async. rewrite Hread.
    rewrite decide_False by (by intros []). by rewrite Hindex. }
  exists g, i. do 3 (split; [done|]).
  destruct (current_question_index_Some g i Hindex) as (q & Hq & _).
  apply lookup_lt_Some in Hq.
  destruct (decide (length (questions g) ≤ S i)%nat) as [Hlast|Hmore].
  - rewrite (cycle_game_room_completes r _ g i) in Hret |- * by done.
    injection Hret as <-. split; [split; [lia|done]|]. by eexists.
  - destruct (lookup_lt_is_Some_2 (questions g) (S i)) as [q' Hq']; [lia|].
    rewrite (cycle_game_room_advances r _ g i q') in Hret |- * by done.
    injection Hret as <-. split; [split; [done|lia]|].
    eexists. split; [done|]. by exists q'.
Qed.

End GameRoomService.

(** * A game from start to end *)

Section GameRoomProgress.
Import Trivia.model Trivia.service.
Context {R : Type} `{Environment R} `{!ReadsLastWrite R}.

Implicit Types (r : R) (g : GameRoom) (q : MultipleChoiceQuestion).

Lemma read_after_update r game_room_code g :
  read_game_room
    (publish (GameRoomUpdatedEvent g)
       (redis_set (make_game_room_key game_room_code) g _GAME_ROOM_TTL r))
    game_room_code
  = Some g.
Proof. by rewrite read_after_publish, read_after_set. Qed.

Lemma repeat_cycle_distinct_aux k :
  ∀ r game_room_code g i q,
    read_game_room r game_room_code = Some g →
    status g = IN_PROGRESS →
    NoDup (id <$> questions g) →
    questions g !! i = Some q →
    current_question_id g = Some (id q) →
    length (questions g) = (S i + k)%nat →
    ∃ q_last,
      last (questions g) = Some q_last
      ∧ fst (repeat_cycle (S k) game_room_code r)
        = (replicate k (Returned false) ++ [Returned true])%list
      ∧ read_game_room (snd (repeat_cycle (S k) game_room_code r)) game_room_code
        = Some (update_field
                  (update_field g (set_current_question_id (Some (id q_last))))
                  (set_status COMPLETED)).
Proof.
  induction k as [|k IH]; intros r game_room_code g i q Hread Hstatus Hnd Hq Hcur Hlen.
  - exists q. split.
    { rewrite last_lookup, Hlen. by replace (pred (S i + 0)) with i by lia. }
    pose proof (current_question_index_distinct g i q Hnd Hq Hcur) as Hindex.
    rewrite repeat_cycle_S.
    rewrite (cycle_game_room_completes r _ g i) by (done || lia).
    cbn [fst snd repeat_cycle replicate app].
    split; [done|]. rewrite read_after_update. f_equal.
    destruct g; simpl in *. by subst.
  - destruct (lookup_lt_is_Some_2 (questions g) (S i)) as [q' Hq']; [lia|].
    pose proof (current_question_index_distinct g i q Hnd Hq Hcur) as Hindex.
    rewrite repeat_cycle_S.
    rewrite (cycle_game_room_advances r _ g i q') by done.
    cbn [fst snd].
    set (g1 := update_field g (set_current_question_id (Some (id q')))).
    set (r1 := publish _ _).
    assert (Hread1 : read_game_room r1 game_room_code = Some g1)
      by apply read_after_update.
    assert (Hlen1 : length (questions g1) = (S (S i) + k)%nat)
      by (simpl; lia).
    destruct (IH r1 game_room_code g1 (S i) q' Hread1 Hstatus Hnd Hq' eq_refl Hlen1)
      as (q_last & Hlast & Hres & Hfinal).
    exists q_last. split; [done|]. split.
    + by rewrite Hres.
    + rewrite Hfinal. reflexivity.
Qed.

(** X3. When the questions of a room in progress have distinct ids and the
    current question is the one at index [i], the room is cycled to its
    end by as many calls as there are questions from [i] on: every call
    but the last returns [false], the last returns [true], and the store
    then holds the room with the status [COMPLETED] and the last question
    as the current one. *)
Theorem repeat_cycle_distinct_ids r game_room_code g i q :
  read_game_room r game_room_code = Some g →
  status g = IN_PROGRESS →
  NoDup (id <$> questions g) →
  questions g !! i = Some q →
  current_question_id g = Some (id q) →
  ∃ q_last,
    last (questions g) = Some q_last
    ∧ fst (repeat_cycle (length (questions g) - i) game_room_code r)
      = (replicate (length (questions g) - S i) (Returned false)
         ++ [Returned true])%list
    ∧ read_game_room
        (snd (repeat_cycle (length (questions g) - i) game_room_code r))
        game_room_code
      = Some (update_field
                (update_field g (set_current_question_id (Some (id q_last))))
                (set_status COMPLETED)).
Proof.
  intros Hread Hstatus Hnd Hq Hcur.
  pose proof (lookup_lt_Some _ _ _ Hq) as Hlt.
  replace (length (questions g) - i)%nat
    with (S (length (questions g) - S i)) by lia.
  eapply repeat_cycle_distinct_aux; eauto. lia.
Qed.

Lemma repeat_cycle_repeated_aux (qs : list MultipleChoiceQuestion) j q_j q_last n :
  qs !! j = Some q_j →
  last qs = Some q_last →
  (S j < length qs)%nat →
  id q_j = id q_last →
  ∀ r game_room_code g,
    read_game_room r game_room_code = Some g →
    questions g = qs →
    status g = IN_PROGRESS →
    is_Some (current_question_index g) →
    fst (repeat_cycle n game_room_code r) = replicate n (Returned false)
    ∧ ∃ g', read_game_room (snd (repeat_cycle n game_room_code r)) game_room_code
            = Some g'
            ∧ questions g' = qs ∧ status g' = IN_PROGRESS.
Proof.
  intros Hj Hlast Hlt Hid.
  induction n as [|n IH]; intros r game_room_code g Hread Hqs Hstatus [i Hindex].
  { split; [done|]. by exists g. }
  destruct (current_question_index_Some g i Hindex) as (q & Hq & Hcur & Hfirst).
  pose proof (lookup_lt_Some _ _ _ Hq) as Hi.
  assert (Hmore : (S i < length (questions g))%nat).
  { destruct (decide (S i < length (questions g))%nat) as [|Hge]; [done|].
    exfalso. rewrite Hqs in Hq, Hi, Hge.
    assert (i = pred (length qs)) as -> by lia.
    rewrite <- last_lookup, Hlast in Hq. injection Hq as <-.
    apply (Hfirst j q_j); [by rewrite Hqs|lia|].
    by rewrite Hcur, Hid. }
  destruct (lookup_lt_is_Some_2 (questions g) (S i)) as [q' Hq']; [lia|].
  rewrite repeat_cycle_S.
  rewrite (cycle_game_room_advances r _ g i q') by done.
  cbn [fst snd].
  set (g1 := update_field g (set_current_question_id (Some (id q')))).
  set (r1 := publish _ _).
  assert (Hread1 : read_game_room r1 game_room_code = Some g1)
    by apply read_after_update.
  assert (Hindex1 : is_Some (current_question_index g1)).
  { unfold current_question_index.
    destruct (list_find_elem_of
                (λ question, Some (id question) = current_question_id g1)
                (questions g1) q') as [[i' q''] Hfind].
    - by apply list_elem_of_lookup_2 with (S i).
    - done.
    - rewrite Hfind. by eexists. }
  destruct (IH r1 game_room_code g1 Hread1 Hqs Hstatus Hindex1)
    as (Hres & g' & Hread' & Hqs' & Hstatus').
  split; [by rewrite Hres|]. by exists g'.
Qed.

(** X4. When the id of the last question is also the id of an earlier
    question, a room in progress is never completed: however often it is
    cycled, every call returns [false] and the room stays in progress. *)
Theorem repeat_cycle_repeated_last_id r game_room_code g j q_j q_last n :
  read_game_room r game_room_code = Some g →
  status g = IN_PROGRESS →
  is_Some (current_question_index g) →
  questions g !! j = Some q_j →
  last (questions g) = Some q_last →
  (S j < length (questions g))%nat →
  id q_j = id q_last →
  fst (repeat_cycle n game_room_code r) = replicate n (Returned false)
  ∧ ∃ g', read_game_room (snd (repeat_cycle n game_room_code r)) game_room_code
          = Some g'
          ∧ questions g' = questions g ∧ status g' = IN_PROGRESS.
Proof.
  intros Hread Hstatus Hindex Hj Hlast Hlt Hid.
  by eapply repeat_cycle_repeated_aux.
Qed.

(** ** Creating a room *)


End GameRoomProgress.

(** * The worker next to the main API *)

Section Worker.
Import Trivia.model Trivia.task.
Context {R : Type} `{Trivia.service.Environment R}.

Implicit Types (w : World R) (r : R).

Lemma countdown_world game_room_code w :
  countdown game_room_code w
  = mkWorld (redis w) (notified w ++ countdown_events game_room_code)
      (slept w + 10).
Proof.
  unfold countdown.
  replace (range cycle_duration 0 (- countdown_interval))
    with [10; 8; 6; 4; 2] by (by vm_compute).
  cbn. unfold countdown_events, countdown_interval. cbn.
  rewrite <- !app_assoc. cbn. f_equal. lia.
Qed.

Lemma cycle_game_room_step fuel game_room_code w :
  cycle_game_room (S fuel) game_room_code w
  = let w1 := mkWorld (snd (Trivia.service.cycle_game_room game_room_code (redis w)))
                (notified w ++ countdown_events game_room_code) (slept w + 10) in
    match fst (Trivia.service.cycle_game_room game_room_code (redis w)) with
    | Raised _ => (Aborts, w1)
    | Returned true => (Returns, w1)
    | Returned false => cycle_game_room fuel game_room_code w1
    end.
Proof.
  cbn [cycle_game_room]. rewrite countdown_world.
  cbn [send_cycle_game_room_webhook World_environment redis notified slept].
  destruct (Trivia.service.cycle_game_room game_room_code (redis w))
    as [[[]|e] r']; reflexivity.
Qed.

(** The worker follows the calls of the main API. *)
Lemma cycle_game_room_follows k :
  ∀ fuel game_room_code w,
    fst (Trivia.service.repeat_cycle (S k) game_room_code (redis w))
    = (replicate k (Returned false) ++ [Returned true])%list →
    (S k ≤ fuel)%nat →
    cycle_game_room fuel game_room_code w
    = (Returns,
       mkWorld (snd (Trivia.service.repeat_cycle (S k) game_room_code (redis w)))
         (notified w ++ mjoin (replicate (S k) (countdown_events game_room_code)))
         (slept w + 10 * Z.of_nat (S k))).
Proof.
  induction k as [|k IH]; intros [|fuel] game_room_code w Hcalls Hfuel; try lia.
  - rewrite repeat_cycle_S in Hcalls |- *.
    rewrite cycle_game_room_step. cbn [fst snd] in *.
    injection Hcalls as Hcall. rewrite Hcall. cbn. reflexivity.
  - rewrite repeat_cycle_S in Hcalls |- *.
    rewrite cycle_game_room_step. cbn [fst snd] in *.
    cbn [replicate app] in Hcalls. injection Hcalls as Hcall Hcalls.
    rewrite Hcall. cbn zeta.
    rewrite (IH fuel); [|done|lia].
    cbn [redis notified slept]. f_equal. f_equal.
    + by rewrite <- app_assoc.
    + lia.
Qed.

Lemma cycle_game_room_never_returns fuel :
  ∀ game_room_code w,
    (∀ n, fst (Trivia.service.repeat_cycle n game_room_code (redis w))
          = replicate n (Returned false)) →
    fst (cycle_game_room fuel game_room_code w) = Loops.
Proof.
  induction fuel as [|fuel IH]; intros game_room_code w Hcalls; [done|].
  rewrite cycle_game_room_step.
  pose proof (Hcalls 1%nat) as Hcall.
  rewrite repeat_cycle_S in Hcall. injection Hcall as Hcall.
  rewrite Hcall. cbn zeta. apply IH. intros n. cbn [redis].
  pose proof (Hcalls (S n)) as Hnext.
  rewrite repeat_cycle_S in Hnext. by injection Hnext as _ Hnext.
Qed.

(** X8. When the main API raises on the first call, whether the room is
    missing, not in progress or without a current question, the worker
    has by then counted a whole cycle down: it has emitted the five
    countdown events and slept for ten seconds. It then stops with the
    failure, and the store is as it was. *)
Theorem cycle_game_room_aborts_after_countdown fuel game_room_code w e :
  fst (Trivia.service.cycle_game_room game_room_code (redis w)) = Raised e →
  cycle_game_room (S fuel) game_room_code w
  = (Aborts,
     mkWorld (redis w) (notified w ++ countdown_events game_room_code)
       (slept w + 10)).
Proof.
  intros Hraises. rewrite cycle_game_room_step, Hraises. cbn zeta.
  by rewrite (cycle_game_room_raised_state _ _ _ Hraises).
Qed.

Context `{!Trivia.service.ReadsLastWrite R}.

(** X6. A game in progress whose questions have distinct ids is played to
    its end by the worker: with [m] questions from the current one on, and
    fuel for [m] rounds, the task returns after [m] calls of the webhook,
    [5 * m] countdown events (10, 8, 6, 4, 2 seconds left, [m] times) and
    [10 * m] seconds of sleep, and the room is then [COMPLETED]. *)
Theorem cycle_game_room_plays_to_the_end fuel game_room_code w g i q :
  Trivia.service.read_game_room (redis w) game_room_code = Some g →
  status g = IN_PROGRESS →
  NoDup (id <$> questions g) →
  questions g !! i = Some q →
  current_question_id g = Some (id q) →
  (length (questions g) - i ≤ fuel)%nat →
  ∃ w' g',
    cycle_game_room fuel game_room_code w = (Returns, w')
    ∧ notified w'
      = (notified w
         ++ mjoin (replicate (length (questions g) - i)
                     (countdown_events game_room_code)))%list
    ∧ slept w' = slept w + 10 * Z.of_nat (length (questions g) - i)
    ∧ Trivia.service.read_game_room (redis w') game_room_code = Some g'
    ∧ status g' = COMPLETED
    ∧ questions g' = questions g.
Proof.
  intros Hread Hstatus Hnd Hq Hcur Hfuel.
  pose proof (lookup_lt_Some _ _ _ Hq) as Hlt.
  destruct (repeat_cycle_distinct_aux (length (questions g) - S i)
              (redis w) game_room_code g i q Hread Hstatus Hnd Hq Hcur)
    as (q_last & _ & Hcalls & Hfinal); [lia|].
  replace (length (questions g) - i)%nat
    with (S (length (questions g) - S i)) in * by lia.
  eexists _, _. split; [by apply cycle_game_room_follows|].
  cbn [redis notified slept]. do 2 (split; [done|]).
  split; [exact Hfinal|]. done.
Qed.

(** X7. When the id of the last question is also the id of an earlier
    question, the worker never returns: whatever the fuel, the task is
    still looping when it is used up. *)
Theorem cycle_game_room_loops_forever fuel game_room_code w g j q_j q_last :
  Trivia.service.read_game_room (redis w) game_room_code = Some g →
  status g = IN_PROGRESS →
  is_Some (Trivia.service.current_question_index g) →
  questions g !! j = Some q_j →
  last (questions g) = Some q_last →
  (S j < length (questions g))%nat →
  id q_j = id q_last →
  fst (cycle_game_room fuel game_room_code w) = Loops.
Proof.
  intros Hread Hstatus Hindex Hj Hlast Hlt Hid.
  apply cycle_game_room_never_returns. intros n.
  by apply (repeat_cycle_repeated_aux (questions g) j q_j q_last n Hj Hlast Hlt Hid
              (redis w) game_room_code g).
Qed.

End Worker.

(** * The event sourcing service *)

Section ResponseMessages.
Import Trivia.events.
Context {W JsonData : Type} `{Environment W JsonData}.

(** X9. A response message that cannot be read is dropped without a
    trace: when the message has no data, when its data are not JSON, or
    when the decoded data are not a valid response event, the handler
    returns without calling any webhook, so the game room is not told of
    the failure. *)
Theorem unreadable_response_is_dropped (message : gmap string string) (w : W) :
  message !! "data" = None
  ∨ (∃ data e, message !! "data" = Some data ∧ json_loads data = inl e)
  ∨ (∃ data json_data e,
       message !! "data" = Some data
       ∧ json_loads data = inr json_data
       ∧ GenerateTriviaQuestionsResponseEvent json_data = inl e) →
  handle_generate_trivia_questions_response_message message w = (None, w).
Proof.
  unfold handle_generate_trivia_questions_response_message, try_response.
  intros [Hdata|[(data & e & Hdata & Hloads)|(data & j & e & Hdata & Hloads & Hevent)]].
  - by rewrite Hdata.
  - by rewrite Hdata, Hloads.
  - by rewrite Hdata, Hloads, Hevent.
Qed.

(** X10. When the message is a valid response event for a room with a
    non-empty code and the response webhook raises, the failure webhook
    is called after it, for that room, as long as the reason is not
    empty. The reason is the text of the exception, except for a JSON
    decoding error inside the webhook, which is reported as invalid JSON
    data although the message was valid JSON. With an empty reason no
    failure webhook is called. *)
Theorem failed_response_webhook_is_reported
    (message : gmap string string) (w w' : W) data json_data c code e :
  message !! "data" = Some data →
  json_loads data = inr json_data →
  GenerateTriviaQuestionsResponseEvent json_data = inr (String c code) →
  send_generate_trivia_questions_response_webhook json_data w = (Some e, w') →
  handle_generate_trivia_questions_response_message message w
  = match reason e with
    | EmptyString => (None, w')
    | String _ _ =>
        send_game_room_failed_webhook
          {| game_room_code := String c code; failure_reason := reason e |} w'
    end
  ∧ (exception_class e = JSONDecodeError →
     reason e = "Received invalid JSON data")
  ∧ (exception_class e ≠ JSONDecodeError → reason e = str e).
Proof.
  intros Hdata Hloads Hevent Hsend.
  unfold handle_generate_trivia_questions_response_message, try_response.
  rewrite Hdata, Hloads, Hevent, Hsend. cbn.
  split; [by destruct (reason e)|].
  unfold reason. by destruct (exception_class e).
Qed.

End ResponseMessages.

(** * The start project lambda *)

Section StartProject.
Import Video.
Context {W JSON : Type} `{Environment W JSON}.

Implicit Types (w : W) (incomingEvent : APIGatewayProxyEvent).

(** X11. The answer 400 is given only to a body that is JSON and fails
    the schema. Where [JSON.parse] throws on the empty text, a request
    without a body makes the handler throw, as does every body that is
    not JSON; in both cases nothing has been done. *)
Theorem handler_400_only_for_json incomingEvent w :
  JSON_parse EmptyString = None →
  (body incomingEvent = None → handler incomingEvent w = (Throws, w))
  ∧ (∀ text, body incomingEvent = Some text → JSON_parse text = None →
       handler incomingEvent w = (Throws, w))
  ∧ (∀ result, fst (handler incomingEvent w) = Responds result →
       statusCode result = 400 →
       ∃ text data,
         body incomingEvent = Some text
         ∧ JSON_parse text = Some data
         ∧ Event_safeParse data = None).
Proof.
  intros Hempty. unfold handler. split; [|split].
  - intros ->. simpl. by rewrite Hempty.
  - intros text -> Hparse. simpl. by rewrite Hparse.
  - intros result.
    destruct (body incomingEvent) as [text|] eqn:Hbody; simpl;
      [|by rewrite Hempty].
    destruct (JSON_parse text) as [data|] eqn:Hparse; [|done].
    destruct (Event_safeParse data) as [topic|] eqn:Hschema.
    + destruct (getProjectsForUser _ _ w) as [[[projects|]|] w1];
        try (by intros [= <-]).
      destruct (existsb _ _); [by intros [= <-]|].
      destruct (createProject _ _ _ w1) as [[[project|]|] w2];
        try (by intros [= <-]).
      destruct (startExecution _ w2) as [[] w3]; by intros [= <-].
    + intros _ _. by exists text, data.
Qed.

(** X12. For a valid request whose query succeeds, the answer is 409
    exactly when some project of the user is in progress or needs
    approval; projects that are finalizing, failed or completed do not
    stand in the way. With the answer 409 nothing is created and nothing
    is started: the handler stops after the query. *)
Theorem handler_conflict incomingEvent w data topic projects w1 :
  JSON_parse (default EmptyString (body incomingEvent)) = Some data →
  Event_safeParse data = Some topic →
  getProjectsForUser (getEnvVariable PROJECT_TABLE_NAME) "user-1" w
  = (Some (Ok projects), w1) →
  ((∃ result, fst (handler incomingEvent w) = Responds result
              ∧ statusCode result = 409)
   ↔ ∃ project, project ∈ projects
                ∧ (status project = InProgress ∨ status project = NeedsApproval))
  ∧ ((∃ project, project ∈ projects
                 ∧ (status project = InProgress ∨ status project = NeedsApproval)) →
     snd (handler incomingEvent w) = w1).
Proof.
  intros Hparse Hschema Hquery. unfold handler.
  rewrite Hparse, Hschema. cbn zeta. rewrite Hquery.
  assert (Hpending :
    existsb isPendingOrActive projects = true
    ↔ ∃ project, project ∈ projects
                 ∧ (status project = InProgress ∨ status project = NeedsApproval)).
  { rewrite existsb_exists. unfold isPendingOrActive.
    split; intros (project & Hin & Hstatus); exists project.
    - apply list_elem_of_In in Hin. split; [done|].
      apply orb_true_iff in Hstatus as [?%bool_decide_eq_true|?%bool_decide_eq_true];
        auto.
    - apply list_elem_of_In in Hin. split; [done|].
      apply orb_true_iff. rewrite !bool_decide_eq_true. tauto. }
  destruct (existsb isPendingOrActive projects) eqn:Hsome.
  - split; [|done]. split; [intros _; by apply Hpending|].
    intros _. by eexists.
  - split.
    + split; [|intros Hex; apply Hpending in Hex; done].
      intros (result & Hres & Hcode). exfalso. revert Hres Hcode.
      destruct (createProject _ _ _ w1) as [[[project|]|] w2];
        try (by intros [= <-]).
      destruct (startExecution _ w2) as [[] w3]; by intros [= <-].
    + intros Hex. apply Hpending in Hex. done.
Qed.

(** X13. When the execution cannot be started, the project has already
    been put in the table with the status [InProgress], and the handler
    answers 500 without touching it again. As long as a query still finds
    that item, every later valid request of the user is refused with
    409. *)
Theorem failed_start_locks_out
    incomingEvent w data topic projects w1 id wa createdAt wb project w2 w3
    nextEvent nextData nextTopic nextProjects w4 :
  JSON_parse (default EmptyString (body incomingEvent)) = Some data →
  Event_safeParse data = Some topic →
  getProjectsForUser (getEnvVariable PROJECT_TABLE_NAME) "user-1" w
  = (Some (Ok projects), w1) →
  existsb isPendingOrActive projects = false →
  v4 w1 = (id, wa) →
  Date_toISOString wa = (createdAt, wb) →
  putItem (getEnvVariable PROJECT_TABLE_NAME)
    (mkProject id "user-1" topic InProgress createdAt) wb
  = (Some (Ok project), w2) →
  startExecution
    {| input := JSON_stringify project;
       stateMachineArn := getEnvVariable START_PROJECT_STATE_MACHINE_ARN |} w2
  = (false, w3) →
  JSON_parse (default EmptyString (body nextEvent)) = Some nextData →
  Event_safeParse nextData = Some nextTopic →
  getProjectsForUser (getEnvVariable PROJECT_TABLE_NAME) "user-1" w3
  = (Some (Ok nextProjects), w4) →
  mkProject id "user-1" topic InProgress createdAt ∈ nextProjects →
  handler incomingEvent w = (Responds unknownError, w3)
  ∧ handler nextEvent w3
    = (Responds
         {| statusCode := 409;
            resultBody := "A Project is already running or needs approval" |},
       w4).
Proof.
  intros Hparse Hschema Hquery Hnone Hid Hdate Hput Hstart
    Hparse' Hschema' Hquery' Hin.
  split.
  - unfold handler. rewrite Hparse, Hschema. cbn zeta.
    rewrite Hquery, Hnone. unfold createProject.
    rewrite Hid, Hdate, Hput. by rewrite Hstart.
  - unfold handler. rewrite Hparse', Hschema'. cbn zeta. rewrite Hquery'.
    assert (Hsome : existsb isPendingOrActive nextProjects = true).
    { apply existsb_exists. eexists. split; [by apply list_elem_of_In|done]. }
    by rewrite Hsome.
Qed.

End StartProject.

(** * The database client *)

Section DbClientResults.
Import Video.
Context {W Item T : Type} `{DocumentClient W Item T}.

(** X14. [getItem] never throws: it answers [Ok] only with data that the
    schema accepted for the item read, a rejected read is answered with
    the retrieval error, and, the schema refusing an absent item, a key
    without an item is answered with the validation error rather than
    with a not-found result. *)
Theorem getItem_results (tableName : string) (key : gmap string string) (w : W) :
  schema_safeParse None = None →
  (∀ data, fst (getItem tableName key w) = Ok data →
     ∃ item, fst (documentClient_get tableName key w) = Some item
             ∧ schema_safeParse item = Some data)
  ∧ (fst (documentClient_get tableName key w) = None →
     fst (getItem tableName key w) = Err "Error retrieving item from DynamoDB")
  ∧ (fst (documentClient_get tableName key w) = Some None →
     fst (getItem tableName key w) = Err "error validation item")
  ∧ snd (getItem tableName key w) = snd (documentClient_get tableName key w).
Proof.
  intros Habsent. unfold getItem, validateItem.
  destruct (documentClient_get tableName key w) as [[item|] w1]; cbn [fst snd].
  - split; [|split; [done|split; [|done]]].
    + intros data Hok. exists item. split; [done|]. revert Hok.
      destruct (schema_safeParse item); [by intros [= ->]|done].
    + intros [= ->]. by rewrite Habsent.
  - split; [done|]. split; [done|]. split; done.
Qed.

End DbClientResults.

(** * The WebSocket connection manager *)

Section Connections.
Import Trivia.websocket.
Context {W WebSocket Event : Type} `{Environment W WebSocket Event}.

Implicit Types (self : GameRoomWebsocketConnectionManager WebSocket) (w : W)
  (attempts : list (WebSocket * string)) (seen : gset string).

Lemma connect_all_from attempts :
  ∀ seen self w,
    list_to_set (connections_map self).*1 = seen →
    connect_all attempts self w
    = (mkManager (game_room_code self)
         (connections_map self ++ accepted seen attempts),
       foldl (λ w websocket, websocket_close websocket "Player already connected" w)
         w (refused seen attempts)).
Proof.
  induction attempts as [|[websocket player_token] attempts IH];
    intros seen self w Hseen.
  { cbn. rewrite app_nil_r. by destruct self. }
  unfold connect_all in *. cbn [foldl accepted refused]. unfold connect at 2.
  assert (Hin : player_token ∈ (connections_map self).*1 ↔ player_token ∈ seen)
    by (rewrite <- Hseen; by rewrite elem_of_list_to_set).
  destruct (decide (player_token ∈ seen)) as [Hold|Hnew].
  - rewrite !bool_decide_eq_true_2 by tauto.
    by rewrite (IH seen).
  - rewrite !bool_decide_eq_false_2 by tauto.
    rewrite (IH ({[player_token]} ∪ seen)).
    + cbn. by rewrite <- app_assoc.
    + cbn. rewrite fmap_app, list_to_set_app_L, Hseen. cbn.
      by rewrite (right_id_L ∅ (∪)), (comm_L (∪)).
Qed.

Lemma accepted_tokens attempts :
  ∀ seen, NoDup (accepted seen attempts).*1
          ∧ ∀ player_token, player_token ∈ (accepted seen attempts).*1 →
              player_token ∉ seen.
Proof.
  induction attempts as [|[websocket player_token] attempts IH]; intros seen.
  { cbn. split; [constructor|]. intros t Ht. by apply elem_of_nil in Ht. }
  cbn [accepted]. case_bool_decide as Hseen; [apply IH|].
  destruct (IH ({[player_token]} ∪ seen)) as [Hnd Hfresh].
  cbn. split.
  - constructor; [|done]. intros Hin. apply Hfresh in Hin.
    apply Hin, elem_of_union. left. by apply elem_of_singleton.
  - intros t [->|Hin]%elem_of_cons; [done|].
    apply Hfresh in Hin. intros Hs. apply Hin, elem_of_union. by right.
Qed.

Lemma dict_get_accepted attempts player_token :
  ∀ seen,
    dict_get player_token (accepted seen attempts)
    = if bool_decide (player_token ∈ seen) then None
      else (λ found, found.2.1) <$> list_find (λ attempt, attempt.2 = player_token) attempts.
Proof.
  induction attempts as [|[websocket t] attempts IH]; intros seen.
  { cbn. by case_bool_decide. }
  cbn [accepted list_find]. cbn.
  destruct (decide (t = player_token)) as [->|Hne].
  - case_bool_decide as Hseen; [by rewrite IH, bool_decide_eq_true_2|].
    cbn. by rewrite String.eqb_refl.
  - case_bool_decide as Hseen.
    + rewrite IH. case_bool_decide; [done|].
      by destruct (list_find _ attempts) as [[]|].
    + cbn. rewrite (proj2 (String.eqb_neq t player_token)) by done.
      rewrite IH.
      destruct (decide (player_token ∈ seen)) as [Hin|Hout].
      * rewrite !bool_decide_eq_true_2; [done|done|].
        apply elem_of_union. by right.
      * rewrite !bool_decide_eq_false_2;
          [by destruct (list_find _ attempts) as [[]|]|done|].
        rewrite elem_of_union, elem_of_singleton. intros [?|?]; congruence.
Qed.

Lemma dict_get_own (d : list (string * WebSocket)) player_token websocket :
  NoDup d.*1 → (player_token, websocket) ∈ d →
  dict_get player_token d = Some websocket.
Proof.
  induction d as [|[t ws] d IH]; intros Hnd Hin; [by apply elem_of_nil in Hin|].
  cbn in Hnd. apply NoDup_cons in Hnd as [Hfresh Hnd]. cbn.
  apply elem_of_cons in Hin as [[= -> ->]|Hin].
  - by rewrite String.eqb_refl.
  - destruct (String.eqb_spec t player_token) as [->|Hne]; [|by apply IH].
    destruct Hfresh. change player_token with (player_token, websocket).1.
    by apply list_elem_of_fmap_2.
Qed.

Lemma broadcast_each_sends event self (d : list (string * WebSocket)) :
  (∀ player_token websocket, (player_token, websocket) ∈ d →
     dict_get player_token (connections_map self) = Some websocket) →
  ∀ w, broadcast_each d.*1 event self w = send_in_order event d.*2 w.
Proof.
  induction d as [|[t ws] d IH]; intros Hown w; [done|].
  cbn. unfold broadcast_one. rewrite (Hown t ws) by left.
  destruct (websocket_send_json ws event w) as [[] w']; [|done].
  apply IH. intros t' ws' Hin. apply Hown. by right.
Qed.

(** X15. After any series of connection attempts on a new manager, every
    token is connected once, to the socket of the first attempt that
    brought it; the sockets of the later attempts with a token already
    connected are closed, in order, with the reason "Player already
    connected", and they replace nothing. *)
Theorem connect_first_wins attempts (game_room_code : string) w :
  connect_all attempts (__init__ game_room_code) w
  = (mkManager game_room_code (accepted ∅ attempts),
     foldl (λ w websocket, websocket_close websocket "Player already connected" w)
       w (refused ∅ attempts))
  ∧ NoDup (accepted ∅ attempts).*1
  ∧ (∀ player_token,
       dict_get player_token (accepted ∅ attempts)
       = (λ found, found.2.1)
           <$> list_find (λ attempt, attempt.2 = player_token) attempts)
  ∧ (length (accepted ∅ attempts) + length (refused ∅ attempts)
     = length attempts)%nat.
Proof.
  split; [|split; [|split]].
  - by rewrite (connect_all_from attempts ∅).
  - apply accepted_tokens.
  - intros player_token. rewrite dict_get_accepted.
    by rewrite bool_decide_eq_false_2 by apply not_elem_of_empty.
  - generalize (∅ : gset string).
    induction attempts as [|[websocket t] attempts IH]; intros seen; [done|].
    cbn [accepted refused].
    case_bool_decide; cbn;
      [rewrite <- (IH seen)|rewrite <- (IH ({[t]} ∪ seen))]; lia.
Qed.

(** X16. A broadcast goes to the sockets of the connected players in the
    order in which they connected, each player being served by its own
    socket, and it ends at the first send that raises: the players that
    connected after that one are not sent the event. On a manager without
    connections nothing is sent. *)
Theorem broadcast_all_in_order event self w :
  NoDup (connections_map self).*1 →
  broadcast_all event self w
  = send_in_order event (connections_map self).*2 w.
Proof.
  intros Hnd. unfold broadcast_all.
  destruct (connections_map self) as [|entry d] eqn:Hmap; [done|].
  rewrite <- Hmap in *. apply broadcast_each_sends.
  intros player_token websocket. by apply dict_get_own.
Qed.

End Connections.

(** * The services on the in-memory store *)

Section InMemory.
Import Trivia.model Trivia.service Trivia.memory.

#[global] Instance Redis_reads_last_write : ReadsLastWrite Redis.
Proof.
  split.
  - intros r code g ex. simpl. by rewrite lookup_insert_eq.
  - done.
Qed.

Lemma cycle_game_room_failure_witness :
  fst (cycle_game_room "ROOM0" empty)
  = Raised (GameRoomNotFoundException "Game room does not exist")
  ∧ snd (cycle_game_room "ROOM0" empty) = empty.
Proof.
  assert (Hraises : fst (cycle_game_room "ROOM0" empty)
                    = Raised (GameRoomNotFoundException "Game room does not exist"))
    by reflexivity.
  split; [exact Hraises|].
  exact (proj1 (cycle_game_room_failure empty "ROOM0" _ Hraises)).
Defined.

Lemma cycle_game_room_success_witness :
  fst (cycle_game_room "ROOM0" (store_with (room_in_progress quiz (Some "q3"))))
  = Returned true
  ∧ ∃ g i,
      read_game_room (store_with (room_in_progress quiz (Some "q3"))) "ROOM0"
      = Some g
      ∧ status g = IN_PROGRESS
      ∧ current_question_index g = Some i
      ∧ (true = true ↔ S i = length (questions g)).
Proof.
  assert (Hreturns :
    fst (cycle_game_room "ROOM0" (store_with (room_in_progress quiz (Some "q3"))))
    = Returned true) by reflexivity.
  split; [exact Hreturns|].
  destruct (cycle_game_room_success _ "ROOM0" true Hreturns)
    as (g & i & Hread & Hstatus & Hindex & Hlast & _).
  by exists g, i.
Defined.

Lemma repeat_cycle_distinct_ids_witness :
  NoDup (id <$> quiz)
  ∧ ∃ q_last,
      last quiz = Some q_last
      ∧ fst (repeat_cycle 3 "ROOM0" (store_with (room_in_progress quiz (Some "q1"))))
        = [Returned false; Returned false; Returned true]
      ∧ read_game_room
          (snd (repeat_cycle 3 "ROOM0"
                  (store_with (room_in_progress quiz (Some "q1")))))
          "ROOM0"
        = Some (update_field
                  (update_field (room_in_progress quiz (Some "q1"))
                     (set_current_question_id (Some (id q_last))))
                  (set_status COMPLETED)).
Proof.
  assert (Hdistinct : NoDup (id <$> quiz))
    by (apply (bool_decide_unpack _); by vm_compute).
  split; [exact Hdistinct|].
  exact (repeat_cycle_distinct_ids
           (store_with (room_in_progress quiz (Some "q1"))) "ROOM0"
           (room_in_progress quiz (Some "q1")) 0 (question "q1")
           eq_refl eq_refl Hdistinct eq_refl eq_refl).
Defined.

Lemma repeat_cycle_repeated_last_id_witness :
  last quiz_repeating = Some (question "q1")
  ∧ fst (repeat_cycle 7 "ROOM0"
           (store_with (room_in_progress quiz_repeating (Some "q1"))))
    = replicate 7 (Returned false).
Proof.
  split; [reflexivity|].
  refine (proj1 (repeat_cycle_repeated_last_id
                   (store_with (room_in_progress quiz_repeating (Some "q1")))
                   "ROOM0" (room_in_progress quiz_repeating (Some "q1"))
                   0 (question "q1") (question "q1") 7
                   eq_refl eq_refl _ eq_refl eq_refl _ eq_refl)).
  - by exists 0%nat.
  - simpl. lia.
Defined.


Lemma cycle_game_room_aborts_after_countdown_witness :
  fst (cycle_game_room "ROOM0" empty)
  = Raised (GameRoomNotFoundException "Game room does not exist")
  ∧ Trivia.task.cycle_game_room 3 "ROOM0" (Trivia.task.mkWorld empty [] 0)
    = (Trivia.task.Aborts,
       Trivia.task.mkWorld empty (Trivia.task.countdown_events "ROOM0") 10).
Proof.
  split; [reflexivity|].
  exact (cycle_game_room_aborts_after_countdown 2 "ROOM0"
           (Trivia.task.mkWorld empty [] 0) _ eq_refl).
Defined.

Lemma cycle_game_room_plays_to_the_end_witness :
  NoDup (id <$> quiz)
  ∧ ∃ w' g',
      Trivia.task.cycle_game_room 5 "ROOM0"
        (Trivia.task.mkWorld (store_with (room_in_progress quiz (Some "q2"))) [] 0)
      = (Trivia.task.Returns, w')
      ∧ Trivia.task.notified w'
        = ([] ++ mjoin (replicate 2 (Trivia.task.countdown_events "ROOM0")))%list
      ∧ Trivia.task.slept w' = 0 + 10 * Z.of_nat 2
      ∧ read_game_room (Trivia.task.redis w') "ROOM0" = Some g'
      ∧ status g' = COMPLETED
      ∧ questions g' = quiz.
Proof.
  assert (Hdistinct : NoDup (id <$> quiz))
    by (apply (bool_decide_unpack _); by vm_compute).
  split; [exact Hdistinct|].
  refine (cycle_game_room_plays_to_the_end 5 "ROOM0"
            (Trivia.task.mkWorld (store_with (room_in_progress quiz (Some "q2"))) [] 0)
            (room_in_progress quiz (Some "q2")) 1 (question "q2")
            eq_refl eq_refl Hdistinct eq_refl eq_refl _).
  simpl. lia.
Defined.

Lemma cycle_game_room_loops_forever_witness :
  last quiz_repeating = Some (question "q1")
  ∧ fst (Trivia.task.cycle_game_room 9 "ROOM0"
           (Trivia.task.mkWorld
              (store_with (room_in_progress quiz_repeating (Some "q2"))) [] 0))
    = Trivia.task.Loops.
Proof.
  split; [reflexivity|].
  refine (cycle_game_room_loops_forever 9 "ROOM0"
            (Trivia.task.mkWorld
               (store_with (room_in_progress quiz_repeating (Some "q2"))) [] 0)
            (room_in_progress quiz_repeating (Some "q2"))
            0 (question "q1") (question "q1")
            eq_refl eq_refl _ eq_refl eq_refl _ eq_refl).
  - by exists 1%nat.
  - simpl. lia.
Defined.

Lemma unreadable_response_is_dropped_witness :
  ({[ "data" := "not json" ]} : gmap string string) !! "data" = Some "not json"
  ∧ Trivia.events.handle_generate_trivia_questions_response_message
      ({[ "data" := "not json" ]} : gmap string string) ([] : list Trivia.events.Call)
    = (None, []).
Proof.
  split; [reflexivity|].
  apply (unreadable_response_is_dropped (W := list Trivia.events.Call)).
  right; left. eexists _, _. split; reflexivity.
Defined.

Lemma failed_response_webhook_is_reported_witness :
  Trivia.events.handle_generate_trivia_questions_response_message
    ({[ "data" := "{room=down" ]} : gmap string string) ([] : list Trivia.events.Call)
  = (None,
     [Trivia.events.ResponseWebhook "{room=down";
      Trivia.events.FailedWebhook
        (Trivia.events.mkGameRoomFailed "down" "Connection refused")]).
Proof.
  exact (proj1 (failed_response_webhook_is_reported
                  (W := list Trivia.events.Call)
                  {[ "data" := "{room=down" ]} [] _ "{room=down" "{room=down"
                  "d" "own" _ eq_refl eq_refl eq_refl eq_refl)).
Defined.

Lemma handler_400_only_for_json_witness :
  Video.JSON_parse (W := Video.Cloud) EmptyString = None
  ∧ Video.handler (Video.mkEvent None) (Video.mkCloud [] [] 1 0)
    = (Video.Throws, Video.mkCloud [] [] 1 0).
Proof.
  split; [reflexivity|].
  exact (proj1 (handler_400_only_for_json (W := Video.Cloud)
                  (Video.mkEvent None) (Video.mkCloud [] [] 1 0) eq_refl)
           eq_refl).
Defined.

Lemma handler_conflict_witness :
  ∃ result,
    fst (Video.handler (Video.mkEvent (Some "{t=rust"))
           (Video.mkCloud
              [Video.mkProject "id-0" "user-1" "go" Video.NeedsApproval "2023"]
              [] 1 0))
    = Video.Responds result
    ∧ Video.statusCode result = 409.
Proof.
  refine (proj2 (proj1 (handler_conflict (W := Video.Cloud)
                          (Video.mkEvent (Some "{t=rust"))
                          (Video.mkCloud
                             [Video.mkProject "id-0" "user-1" "go"
                                Video.NeedsApproval "2023"] [] 1 0)
                          "{t=rust" "rust" _ _ eq_refl eq_refl eq_refl)) _).
  eexists. split; [by left|by right].
Defined.

Lemma failed_start_locks_out_witness :
  Video.handler (Video.mkEvent (Some "{t=rust")) (Video.mkCloud [] [] 0 0)
  = (Video.Responds Video.unknownError,
     Video.mkCloud
       [Video.mkProject "id-0" "user-1" "rust" Video.InProgress
          "2023-06-02T15:22:01"] [] 0 2)
  ∧ Video.handler (Video.mkEvent (Some "{t=go"))
      (Video.mkCloud
         [Video.mkProject "id-0" "user-1" "rust" Video.InProgress
            "2023-06-02T15:22:01"] [] 0 2)
    = (Video.Responds
         {| Video.statusCode := 409;
            Video.resultBody := "A Project is already running or needs approval" |},
       Video.mkCloud
         [Video.mkProject "id-0" "user-1" "rust" Video.InProgress
            "2023-06-02T15:22:01"] [] 0 2).
Proof.
  refine (failed_start_locks_out (W := Video.Cloud)
            (Video.mkEvent (Some "{t=rust")) (Video.mkCloud [] [] 0 0)
            "{t=rust" "rust" [] _ "id-0" _ "2023-06-02T15:22:01" _ _ _ _
            (Video.mkEvent (Some "{t=go")) "{t=go" "go" _ _
            eq_refl eq_refl eq_refl eq_refl eq_refl eq_refl eq_refl eq_refl
            eq_refl eq_refl eq_refl _).
  by left.
Defined.

Lemma getItem_results_witness :
  Video.schema_safeParse (W := gmap string Video.Project) None = None
  ∧ fst (Video.getItem "projects" {[ "id" := "id-7" ]}
           (∅ : gmap string Video.Project))
    = Video.Err "error validation item".
Proof.
  split; [reflexivity|].
  exact (proj1 (proj2 (proj2 (getItem_results (W := gmap string Video.Project)
                                "projects" {[ "id" := "id-7" ]} ∅ eq_refl)))
           eq_refl).
Defined.

Lemma broadcast_all_in_order_witness :
  NoDup [("ann", 3%nat); ("bob", 0%nat); ("cat", 5%nat)].*1
  ∧ Trivia.websocket.broadcast_all "next question"
      (Trivia.websocket.mkManager "ROOM0"
         [("ann", 3%nat); ("bob", 0%nat); ("cat", 5%nat)])
      ([] : list Trivia.websocket.Traffic)
    = (false, [Trivia.websocket.Sent 3 "next question"]).
Proof.
  assert (Hdistinct : NoDup [("ann", 3%nat); ("bob", 0%nat); ("cat", 5%nat)].*1)
    by (apply (bool_decide_unpack _); by vm_compute).
  split; [exact Hdistinct|].
  exact (broadcast_all_in_order (W := list Trivia.websocket.Traffic)
           "next question"
           (Trivia.websocket.mkManager "ROOM0"
              [("ann", 3%nat); ("bob", 0%nat); ("cat", 5%nat)])
           [] Hdistinct).
Defined.

Example connect_first_wins_example :
  Trivia.websocket.connect_all
    [(3%nat, "ann"); (4%nat, "bob"); (5%nat, "ann"); (6%nat, "cat"); (7%nat, "bob")]
    (Trivia.websocket.__init__ "ROOM0") ([] : list Trivia.websocket.Traffic)
  = (Trivia.websocket.mkManager "ROOM0" [("ann", 3%nat); ("bob", 4%nat); ("cat", 6%nat)],
     [Trivia.websocket.Closed 5 "Player already connected";
      Trivia.websocket.Closed 7 "Player already connected"]).
Proof. reflexivity. Qed.

End InMemory.
